(** * gaap: a goal-oriented action planner, embedded and verified

    The development follows [gaap.ts] (store, effects, goals, planner) and
    the demo world of [world.ts].

    Embedding conventions.
    - A store object ([createPseudoAgent]) owns one private [Map]; its methods
      are state transformers over that map ([gmap string value]).
    - A function that receives store objects is a computation in a state and
      exception monad whose state is the contents of the objects it is
      handed; the objects built by [pseudoAgentFrom] are fresh, so they are
      local states of the caller, run with [local].
    - [agent] and [world] are two distinct objects.
    - [canPerform], [apply] and both [check]s are such computations: they may
      write the stores they are handed and may raise. An expectation's
      [compare] is called by the host's sort; it is a total function of the
      contents of the two concepts.
    - Finite JavaScript numbers are integers here (all quantities, deltas and
      costs of the program are); [Infinity], [-Infinity] and [NaN] are kept,
      the rounding of doubles is not modelled. *)

From Stdlib Require Import ZArith Lia.
From stdpp Require Import base option list gmap strings pretty sorting.


(** ** Numbers and values *)

Inductive num : Type :=
  | NaN
  | NegInf
  | Fin (z : Z)
  | PosInf.

#[global] Instance num_eq_dec : EqDecision num.
Proof. solve_decision. Defined.

(** [a + b] on numbers. *)
Definition js_add (a b : num) : num :=
  match a, b with
  | NaN, _ | _, NaN => NaN
  | PosInf, NegInf | NegInf, PosInf => NaN
  | PosInf, _ | _, PosInf => PosInf
  | NegInf, _ | _, NegInf => NegInf
  | Fin x, Fin y => Fin (x + y)
  end.

(** [Math.max(a, b)] and [Math.min(a, b)]. *)
Definition math_max (a b : num) : num :=
  match a, b with
  | NaN, _ | _, NaN => NaN
  | PosInf, _ | _, PosInf => PosInf
  | NegInf, x | x, NegInf => x
  | Fin x, Fin y => Fin (Z.max x y)
  end.

Definition math_min (a b : num) : num :=
  match a, b with
  | NaN, _ | _, NaN => NaN
  | NegInf, _ | _, NegInf => NegInf
  | PosInf, x | x, PosInf => x
  | Fin x, Fin y => Fin (Z.min x y)
  end.

(** [a > b]; every comparison with [NaN] is false. *)
Definition js_gt (a b : num) : bool :=
  match a, b with
  | NaN, _ | _, NaN => false
  | NegInf, _ => false
  | _, PosInf => false
  | PosInf, _ => true
  | Fin _, NegInf => true
  | Fin x, Fin y => (y <? x)%Z
  end.

Definition js_lt (a b : num) : bool := js_gt b a.

(** [a >= b]. *)
Definition js_ge (a b : num) : bool :=
  match a, b with
  | NaN, _ | _, NaN => false
  | PosInf, _ => true
  | _, NegInf => true
  | NegInf, _ => false
  | Fin _, PosInf => false
  | Fin x, Fin y => (y <=? x)%Z
  end.

Definition js_le (a b : num) : bool := js_ge b a.

(** The values a store holds are [unknown] in the source: numbers, and
    anything else ([VOther], e.g. the array under ["pos"] in the demo). *)
Inductive value : Type :=
  | VNum (n : num)
  | VOther (repr : string).

#[global] Instance value_eq_dec : EqDecision value.
Proof. solve_decision. Defined.

(** ** Results, exceptions and the state monad *)

Inductive exn : Type :=
  | TypeError     (* reading a property of [undefined] *)
  | UnwrapNone.   (* [unwrap] of [Option.None] *)

Inductive Res (A : Type) : Type :=
  | Ok (a : A)
  | Throw (e : exn).
Arguments Ok {A} a.
Arguments Throw {A} e.

Definition St (S A : Type) : Type := S -> Res A * S.

Definition ret {S A} (a : A) : St S A := fun s => (Ok a, s).

Definition throw {S A} (e : exn) : St S A := fun s => (Throw e, s).

Definition bind {S A B} (m : St S A) (f : A -> St S B) : St S B :=
  fun s =>
    match m s with
    | (Ok a, s') => f a s'
    | (Throw e, s') => (Throw e, s')
    end.

Definition getS {S} : St S S := fun s => (Ok s, s).
Definition putS {S} (s : S) : St S unit := fun _ => (Ok tt, s).

Declare Scope st_scope.
Delimit Scope st_scope with st.
Notation "x <- m ;; k" := (bind m (fun x => k))
  (at level 20, m at level 99, k at level 200) : st_scope.
Notation "' pat <- m ;; k" := (bind m (fun x => match x with pat => k end))
  (at level 20, pat pattern, m at level 99, k at level 200) : st_scope.
Notation "m ;; k" := (bind m (fun _ => k))
  (at level 100, k at level 200, right associativity) : st_scope.
Open Scope st_scope.

(** A [for (const x of xs)] loop that carries an accumulator. *)
Fixpoint foldM {S A B} (f : B -> A -> St S B) (acc : B) (xs : list A)
  : St S B :=
  match xs with
  | [] => ret acc
  | x :: xs' => acc' <- f acc x ;; foldM f acc' xs'
  end.

(** A [for (const x of xs)] loop run for its effects. *)
Fixpoint forM_ {S A} (f : A -> St S unit) (xs : list A) : St S unit :=
  match xs with
  | [] => ret tt
  | x :: xs' => f x ;; forM_ f xs'
  end.

(** A call on objects that are local to the caller: the computation [m] runs
    on their contents [loc]; the caller gets the value and the objects' new
    contents, and an exception of [m] propagates. *)
Definition local {S L A} (m : St L A) (loc : L) : St S (A * L) :=
  fun s =>
    match m loc with
    | (Ok a, loc') => (Ok (a, loc'), s)
    | (Throw e, _) => (Throw e, s)
    end.

(** ** Option (module [yielder]) *)

(** Modelled from the spec: [Enums.Option] of module [yielder] is not part
    of the sources; the spec gives it as a sum type [Some(T) | None]. It is
    Rocq's [option]; [unwrap] of [None] is taken to raise. *)
Definition is_some {A} (o : option A) : bool :=
  match o with Some _ => true | None => false end.

Definition unwrap {S A} (o : option A) : St S A :=
  match o with
  | Some a => ret a
  | None => throw UnwrapNone
  end.

(** ** Stores: [createPseudoAgent] *)

Abbreviation Store := (gmap string value).

Module PseudoAgent.

(** The fresh [Map] of a new object; [name] is only read by [print]. *)
Definition create (name : string) : Store := ∅.

Definition get (key : string) : St Store (option value) :=
  values <- getS ;;
  match values !! key with
  | Some v => ret (Some v)
  | None => ret None
  end.

Definition set (key : string) (v : value) : St Store bool :=
  values <- getS ;;
  match values !! key with
  | None => ret false
  | Some _ => putS (<[key := v]> values) ;; ret true
  end.

Definition put (key : string) (v : value) : St Store bool :=
  values <- getS ;;
  match values !! key with
  | Some _ => ret false
  | None => putS (<[key := v]> values) ;; ret true
  end.

Definition has (key : string) : St Store bool :=
  values <- getS ;;
  ret (is_some (values !! key)).

(** [[...values.keys()]]: the keys, each once. The insertion order of a
    [Map] is not kept by [gmap]; it is only visible through the order of
    this list. *)
Definition keys : St Store (list string) :=
  values <- getS ;;
  ret (map fst (map_to_list values)).

End PseudoAgent.

Definition createPseudoAgent := PseudoAgent.create.

(** [pseudoAgentFrom(name, store)]: the state is the source [store]; the
    result is the new object. *)
Definition pseudoAgentFrom (name : string) : St Store Store :=
  let agent := createPseudoAgent name in
  ks <- PseudoAgent.keys ;;
  foldM (fun agent key =>
           o <- PseudoAgent.get key ;;
           v <- unwrap o ;;
           '(_, agent') <- local (PseudoAgent.put key v) agent ;;
           ret agent')
        agent ks.

(** [pseudoAgentSetup(name, origin)], [origin] given by its entries. *)
Definition pseudoAgentSetup (name : string) (origin : list (string * value))
  : Store :=
  let agent := createPseudoAgent name in
  fold_left (fun agent '(key, val) =>
               match PseudoAgent.has key agent with
               | (Ok true, _) => snd (PseudoAgent.set key val agent)
               | _ => snd (PseudoAgent.put key val agent)
               end)
            origin agent.

(** ** The data model *)

(** [Concept]: a pair of stores, also the state of every function that is
    handed [(agent, world)]. *)
Record Concept : Type := { agent : Store; world : Store }.

Definition on_agent {A} (m : St Store A) : St Concept A :=
  fun c => let '(r, a) := m (agent c) in (r, {| agent := a; world := world c |}).

Definition on_world {A} (m : St Store A) : St Concept A :=
  fun c => let '(r, w) := m (world c) in (r, {| agent := agent c; world := w |}).

(** ["agent" | "world"]. *)
Inductive Target : Type := OnAgent | OnWorld.

#[global] Instance Target_eq_dec : EqDecision Target.
Proof. solve_decision. Defined.

Module ActionEffect.
Record t : Type := {
  name : string;
  on : Target;
  apply : St Concept unit;
  check : St Concept (option Concept);
}.
End ActionEffect.
Abbreviation ActionEffect := ActionEffect.t.

Module Action.
(** [ref] stands for the identity of the object: [!=] on actions compares
    references. *)
Record t : Type := {
  ref : nat;
  name : string;
  canPerform : St Concept bool;
  effects : list ActionEffect;
  cost : Z;
}.
End Action.
Abbreviation Action := Action.t.

Inductive Comparison : Type := GT | LT | EQ.

#[global] Instance Comparison_eq_dec : EqDecision Comparison.
Proof. solve_decision. Defined.

Module Expects.
(** [compare] is a function of the contents of the two concepts. *)
Record t : Type := {
  name : string;
  target : Target;
  property : string;
  compare : Concept -> Concept -> Comparison;
  check : St Concept bool;
}.
End Expects.
Abbreviation Expects := Expects.t.

Module Goal.
Record t : Type := {
  name : string;
  expectations : list Expects;
}.
End Goal.
Abbreviation Goal := Goal.t.

Definition NOOP : Action := {|
  Action.ref := 0;
  Action.name := "No Op";
  Action.canPerform := ret true;
  Action.effects := [];
  Action.cost := 0;
|}.

Definition applyAction (action : Action) : St Concept unit :=
  forM_ ActionEffect.apply (Action.effects action).

Fixpoint goalReached_loop (expectations : list Expects) : St Concept bool :=
  match expectations with
  | [] => ret true
  | expec :: rest =>
      ok <- Expects.check expec ;;
      if negb ok then ret false else goalReached_loop rest
  end.

Definition goalReached (goal : Goal) : St Concept bool :=
  goalReached_loop (Goal.expectations goal).

Definition goalCmp (goal : Goal) (agentA worldA agentB worldB : Store)
  : Comparison :=
  let '(expectsA, expectsB) :=
    fold_left
      (fun '(expectsA, expectsB) expec =>
         let comparison :=
           Expects.compare expec
             {| agent := agentA; world := worldA |}
             {| agent := agentB; world := worldB |} in
         match comparison with
         | GT => (expectsA + 1, expectsB)
         | LT => (expectsA, expectsB + 1)
         | EQ => (expectsA, expectsB)
         end%Z)
      (Goal.expectations goal) (0, 0)%Z in
  if (expectsB <? expectsA)%Z then GT
  else if (expectsA <? expectsB)%Z then LT
  else EQ.

Definition planCost (plan : list Action) : Z :=
  fold_left (fun cost action => (cost + Action.cost action)%Z) plan 0%Z.

(** ** [Array.prototype.sort]

    The host's sort is stable; it is modelled by a stable insertion sort.
    [c a b < 0] puts [a] first, [c a b > 0] puts [b] first. For a comparator
    that is not a consistent order the language leaves the resulting order
    to the host; the model fixes it to what insertion gives. What is stated
    of the order of a sorted array is therefore stated for comparators that
    order its elements, where every stable sort gives the same array. *)
Section Sort.
Context {A : Type} (c : A -> A -> Z).

Fixpoint js_insert (x : A) (l : list A) : list A :=
  match l with
  | [] => [x]
  | y :: l' => if (0 <? c x y)%Z then y :: js_insert x l' else x :: l
  end.

Definition js_sort (l : list A) : list A := foldr js_insert [] l.
End Sort.

(** ** The planner *)

Module Introspected.
(** An entry of the array [introspected]: a leaf plan with the two stores
    it was replayed on. *)
Record t : Type := {
  plan : list Action;
  agent : Store;
  world : Store;
}.
End Introspected.
Abbreviation Introspected := Introspected.t.

Module Planner.

Record t : Type := {
  actions : list Action;          (* #actions *)
  ambientActions : list Action;   (* #ambientActions *)
}.

Definition new : t := {| actions := []; ambientActions := [] |}.

Definition setActions (actions : list Action) (this : t) : t :=
  {| actions :=
       js_sort (fun a b => (Action.cost a - Action.cost b)%Z) actions;
     ambientActions := ambientActions this |}.

Definition setAmbientActions (actions : list Action) (this : t) : t :=
  {| actions := Planner.actions this; ambientActions := actions |}.

(** [plan[plan.length - 1] != act]; on the empty plan the left side is
    [undefined], different from every action. *)
Definition not_tail (plan : list Action) (act : Action) : bool :=
  match last plan with
  | None => true
  | Some a => negb (Nat.eqb (Action.ref a) (Action.ref act))
  end.

Fixpoint simulate_in_place (this : t) (plan : list Action)
  : St Concept bool :=
  match plan with
  | [] => ret true
  | action :: rest =>
      forM_ applyAction (ambientActions this) ;;
      ok <- Action.canPerform action ;;
      if negb ok then ret false
      else applyAction action ;; simulate_in_place this rest
  end.

(** The comparator handed to [introspected.sort]. *)
Definition rank (goal : Goal) (a b : Introspected) : Z :=
  match goalCmp goal (Introspected.agent a) (Introspected.world a)
                     (Introspected.agent b) (Introspected.world b) with
  | GT => -1
  | LT => 1
  | EQ => planCost (Introspected.plan a) - planCost (Introspected.plan b)
  end%Z.

(** [depth] counts down by one from a natural number, [depth <= 0] is
    [depth = 0]. The [for (;;)] loop pops [plans] from its end, so it
    visits the candidates in reverse. *)
Fixpoint plan_introspection (this : t) (goal : Goal) (plan : list Action)
    (depth : nat) {struct depth} : St Concept (list (list Action)) :=
  match depth with
  | O => ret [plan]
  | S depth' =>
      let actions := filter (fun act => not_tail plan act) (actions this) in
      plans <-
        foldM (fun plans action =>
                 simAgent <- on_agent (pseudoAgentFrom
                   ("PerformableCheck" +:+ pretty depth +:+ "Agent")) ;;
                 simWorld <- on_world (pseudoAgentFrom
                   ("PerformableCheck" +:+ pretty depth +:+ "World")) ;;
                 '(_, sim) <- local (simulate_in_place this plan)
                   {| agent := simAgent; world := simWorld |} ;;
                 '(ok, _) <- local (Action.canPerform action) sim ;;
                 if negb ok then ret plans
                 else ret (plans ++ [plan ++ [action]]))
              [] actions ;;
      introspected <-
        foldM (fun introspected p =>
                 introsPls <- plan_introspection this goal p depth' ;;
                 foldM (fun introspected introsPlan =>
                          simAgent <- on_agent (pseudoAgentFrom
                            ("IntrospectDepth" +:+ pretty depth +:+ "Agent")) ;;
                          simWorld <- on_world (pseudoAgentFrom
                            ("IntrospectDepth" +:+ pretty depth +:+ "World")) ;;
                          '(_, sim) <- local (simulate_in_place this introsPlan)
                            {| agent := simAgent; world := simWorld |} ;;
                          ret (introspected ++
                                 [{| Introspected.plan := introsPlan;
                                     Introspected.agent := agent sim;
                                     Introspected.world := world sim |}]))
                       introspected introsPls)
              [] (rev plans) ;;
      let sorted := js_sort (rank goal) introspected in
      ret (map Introspected.plan (take 3 sorted))
  end.

(** [newPlans[0].length] raises a [TypeError] when [newPlans] is empty.
    Past the length test [newPlan[plan.length]] is an element. *)
Definition introspect (this : t) (goal : Goal) (plan : list Action)
    (depth : nat) : St Concept (option Action) :=
  if (depth <=? 0)%nat then ret None
  else
    newPlans <- plan_introspection this goal plan depth ;;
    match newPlans with
    | [] => throw TypeError
    | newPlan :: _ =>
        if (length newPlan <=? length plan)%nat then ret None
        else
          match newPlan !! length plan with
          | Some action => ret (Some action)
          | None => throw TypeError
          end
    end.

Definition simulate (this : t) (goal : Goal) (plan : list Action)
  : St Concept bool :=
  fAgent <- on_agent (pseudoAgentFrom "SimulatedAgent") ;;
  fWorld <- on_world (pseudoAgentFrom "SimulatedWorld") ;;
  '(ok, f) <- local (simulate_in_place this plan)
    {| agent := fAgent; world := fWorld |} ;;
  if negb ok then ret false
  else '(reached, _) <- local (goalReached goal) f ;; ret reached.

(** The [while (!planDone && maxIterations > 0)] loop of [plan]. *)
Fixpoint plan_loop (this : t) (goal : Goal) (maxIterations : nat)
    (actionsPlan : list Action) (planDone : bool)
  : St Concept (option (list Action)) :=
  if planDone then ret (Some actionsPlan)
  else
    match maxIterations with
    | O => ret (Some actionsPlan)
    | S maxIterations' =>
        doOpt <- introspect this goal actionsPlan 5 ;;
        if negb (is_some doOpt) then ret None
        else
          op <- unwrap doOpt ;;
          let actionsPlan := actionsPlan ++ [op] in
          ok <- Action.canPerform op ;;
          planDone <- (if ok then simulate this goal actionsPlan
                       else ret planDone) ;;
          plan_loop this goal maxIterations' actionsPlan planDone
    end.

Definition plan (this : t) (goal : Goal)
  : St Concept (option (list Action)) :=
  let expectations := Goal.expectations goal in
  if (length expectations =? 0)%nat then ret (Some [NOOP])
  else plan_loop this goal 50 [] false.

End Planner.

(** ** Construction helpers *)

(** The number read by [store.get<number>(propName).unwrap() + amount] once
    [Math.max] has converted it. For a value that is not a number the sum is
    a text; the only such values of the program are arrays of several
    numbers, whose text does not read as a number. *)
Definition plus_amount (v : value) (amount : num) : num :=
  match v with
  | VNum n => js_add n amount
  | VOther _ => NaN
  end.

Definition target_name (on : Target) : string :=
  match on with OnAgent => "agent" | OnWorld => "world" end.

Definition on_target {A} (on : Target) (m : St Store A) : St Concept A :=
  match on with OnAgent => on_agent m | OnWorld => on_world m end.

(** [changeAmtEffect(a, on, propName)]: [a] is a number or a triple
    [[amount, min, max]]. *)
Definition changeAmtEffect (a : num + num * num * num) (on : Target)
    (propName : string) : ActionEffect :=
  let '(amount, min, max) :=
    match a with
    | inl n => (n, NegInf, PosInf)
    | inr t => t
    end in
  let updateStore : St Store bool :=
    o <- PseudoAgent.get propName ;;
    v <- unwrap o ;;
    PseudoAgent.set propName
      (VNum (math_min (math_max (plus_amount v amount) min) max)) in
  let apply : St Concept unit := on_target on updateStore ;; ret tt in
  let check : St Concept (option Concept) :=
    aO <- on_agent (PseudoAgent.get propName) ;;
    wO <- on_world (PseudoAgent.get propName) ;;
    if bool_decide (on = OnAgent) && negb (is_some aO) then ret None
    else if bool_decide (on = OnWorld) && negb (is_some wO) then ret None
    else
      fA <- on_agent (pseudoAgentFrom "fakeAgent") ;;
      fW <- on_world (pseudoAgentFrom "fakeWorld") ;;
      '(_, f) <- local apply {| agent := fA; world := fW |} ;;
      ret (Some f) in
  {| ActionEffect.name :=
       (if js_lt amount (Fin 0) then "Decrement" else "Increment")
         +:+ " " +:+ propName +:+ " on " +:+ target_name on;
     ActionEffect.on := on;
     ActionEffect.apply := apply;
     ActionEffect.check := check |}.

Module ExpectBuilder.
Record t : Type := {
  name_ : string;
  prop_ : string;
  target_ : Target;
  checker_ : St Concept bool;
  comparer_ : Concept -> Concept -> Comparison;
}.

Definition new : t := {|
  name_ := "expectation";
  prop_ := "<no-property>";
  target_ := OnAgent;
  checker_ := ret true;
  comparer_ := fun _ _ => EQ;
|}.

Definition name (n : string) (this : t) : t :=
  {| name_ := n; prop_ := prop_ this; target_ := target_ this;
     checker_ := checker_ this; comparer_ := comparer_ this |}.
Definition prop (p : string) (this : t) : t :=
  {| name_ := name_ this; prop_ := p; target_ := target_ this;
     checker_ := checker_ this; comparer_ := comparer_ this |}.
Definition target (tg : Target) (this : t) : t :=
  {| name_ := name_ this; prop_ := prop_ this; target_ := tg;
     checker_ := checker_ this; comparer_ := comparer_ this |}.
Definition checker (ch : St Concept bool) (this : t) : t :=
  {| name_ := name_ this; prop_ := prop_ this; target_ := target_ this;
     checker_ := ch; comparer_ := comparer_ this |}.
Definition comparer (cm : Concept -> Concept -> Comparison) (this : t) : t :=
  {| name_ := name_ this; prop_ := prop_ this; target_ := target_ this;
     checker_ := checker_ this; comparer_ := cm |}.

Definition build (this : t) : Expects :=
  let property := prop_ this in
  let target := target_ this in
  let checker := checker_ this in
  let check : St Concept bool :=
    o <- on_target target (PseudoAgent.get property) ;;
    if negb (is_some o) then ret false else checker in
  {| Expects.name := name_ this;
     Expects.property := property;
     Expects.target := target;
     Expects.compare := comparer_ this;
     Expects.check := check |}.
End ExpectBuilder.

Module GoalBuilder.
Record t : Type := {
  name_ : string;
  expectations_ : list Expects;
}.

Definition new : t := {| name_ := "goal"; expectations_ := [] |}.

Definition name (n : string) (this : t) : t :=
  {| name_ := n; expectations_ := expectations_ this |}.

Definition expect (expecBuild : ExpectBuilder.t -> Expects) (this : t) : t :=
  let builder := ExpectBuilder.new in
  let expec := expecBuild builder in
  {| name_ := name_ this;
     expectations_ := expectations_ this ++ [expec] |}.

Definition build (this : t) : Goal :=
  {| Goal.name := name_ this; Goal.expectations := expectations_ this |}.
End GoalBuilder.

Definition goalBuilder : GoalBuilder.t := GoalBuilder.new.

Definition numCmp (a b : num) : Comparison :=
  if js_gt a b then GT else if js_gt b a then LT else EQ.

(** ** The demo world ([createWorld]) *)

Module World.

(** A value read as [get<number>]. *)
Definition as_num (v : value) : num :=
  match v with VNum n => n | VOther _ => NaN end.

(** [c.agent.get<number>(key).unwrap()] inside a comparer. A comparer is a
    total function here: where the property is missing (it never is in
    the demo) the read is [NaN]. *)
Definition read (s : Store) (key : string) : num :=
  match s !! key with Some v => as_num v | None => NaN end.

Definition get_num (on : Target) (key : string) : St Concept num :=
  o <- on_target on (PseudoAgent.get key) ;;
  v <- unwrap o ;;
  ret (as_num v).

Definition HealthyFire : Expects :=
  ExpectBuilder.build
    (ExpectBuilder.comparer
       (fun a b =>
          let fireA := read (world a) "fire" in
          let fireB := read (world b) "fire" in
          let woodA := read (agent a) "wood" in
          let woodB := read (agent b) "wood" in
          let after :=
            if js_gt woodA woodB then GT
            else if js_gt woodB woodA then LT
            else EQ in
          if js_lt fireA (Fin 69) && js_gt (Fin 69) fireB then
            let fireCmp := numCmp fireA fireB in
            if negb (bool_decide (fireCmp = EQ)) then fireCmp
            else if js_lt woodA (Fin 2) && js_lt woodB (Fin 2) then EQ
            else after
          else after)
       (ExpectBuilder.checker
          (fire <- get_num OnWorld "fire" ;; ret (js_ge fire (Fin 69)))
          (ExpectBuilder.prop "fire"
             (ExpectBuilder.target OnWorld
                (ExpectBuilder.name "fire-healthy" ExpectBuilder.new))))).

Definition HasFewWood : Expects :=
  ExpectBuilder.build
    (ExpectBuilder.comparer
       (fun a b =>
          let prop := "wood" in
          let woodA := read (agent a) prop in
          let woodB := read (agent b) prop in
          if js_lt woodA (Fin 5) && js_gt (Fin 5) woodB then
            numCmp woodA woodB
          else if js_gt woodA (Fin 10) && js_le woodB (Fin 10) then LT
          else if js_le woodA (Fin 10) && js_gt woodB (Fin 10) then GT
          else if js_gt woodA (Fin 10) && js_lt (Fin 10) woodB then
            numCmp woodB woodA
          else EQ)
       (ExpectBuilder.checker
          (wood <- get_num OnAgent "wood" ;;
           ret (js_ge wood (Fin 5) && js_le wood (Fin 10)))
          (ExpectBuilder.prop "wood"
             (ExpectBuilder.target OnAgent
                (ExpectBuilder.name "have-wood" ExpectBuilder.new))))).

Definition NotStarving : Expects :=
  ExpectBuilder.build
    (ExpectBuilder.comparer
       (fun a b =>
          let hungerA := read (agent a) "hunger" in
          let hungerB := read (agent b) "hunger" in
          if js_lt hungerA (Fin 10) && js_lt hungerB (Fin 10) then EQ
          else numCmp hungerB hungerA)
       (ExpectBuilder.checker
          (hunger <- get_num OnAgent "hunger" ;;
           ret (js_lt hunger (Fin 50)))
          (ExpectBuilder.prop "hunger"
             (ExpectBuilder.target OnAgent
                (ExpectBuilder.name "dont-starve" ExpectBuilder.new))))).

Definition surviveGoal : Goal :=
  GoalBuilder.build
    (GoalBuilder.expect (fun _ => NotStarving)
       (GoalBuilder.expect (fun _ => HasFewWood)
          (GoalBuilder.expect (fun _ => HealthyFire)
             (GoalBuilder.name "survive" goalBuilder)))).

Definition getWood : Action := {|
  Action.ref := 1;
  Action.name := "get_wood";
  Action.cost := 4;
  Action.canPerform :=
    maybeWood <- on_world (PseudoAgent.get "wood") ;;
    if negb (is_some maybeWood) then ret false
    else
      wood <- unwrap maybeWood ;;
      match wood with
      | VNum wood => ret (js_ge wood (Fin 2))
      | VOther _ => ret false
      end;
  Action.effects := [
    changeAmtEffect (inl (Fin (-2))) OnWorld "wood";
    changeAmtEffect (inl (Fin 2)) OnAgent "wood";
    changeAmtEffect (inl (Fin 4)) OnAgent "hunger"
  ];
|}.

Definition addWoodToFire : Action := {|
  Action.ref := 2;
  Action.name := "feed_fire";
  Action.cost := 2;
  Action.canPerform :=
    woodOpt <- on_agent (PseudoAgent.get "wood") ;;
    o <- on_agent (PseudoAgent.get "wood") ;;
    if negb (is_some o) then ret false
    else
      o <- on_world (PseudoAgent.get "wood") ;;
      if negb (is_some o) then ret false
      else
        wood <- unwrap woodOpt ;;
        match wood with
        | VNum wood => ret (js_ge wood (Fin 2))
        | VOther _ => ret false
        end;
  Action.effects := [
    changeAmtEffect (inl (Fin (-2))) OnAgent "wood";
    changeAmtEffect (inl (Fin 10)) OnWorld "fire";
    changeAmtEffect (inl (Fin 2)) OnAgent "hunger"
  ];
|}.

Definition fireDecay : Action := {|
  Action.ref := 3;
  Action.name := "fire_decay";
  Action.cost := 0;
  Action.canPerform :=
    fire <- get_num OnWorld "fire" ;;
    ret (js_gt fire (Fin 0));
  Action.effects := [changeAmtEffect (inl (Fin (-1))) OnWorld "fire"];
|}.

Definition eatFood : Action := {|
  Action.ref := 4;
  Action.name := "eat_food";
  Action.cost := 1;
  Action.canPerform :=
    food <- get_num OnAgent "food" ;;
    hunger <- get_num OnAgent "hunger" ;;
    ret (js_gt food (Fin 0) && js_gt hunger (Fin 2));
  Action.effects := [
    changeAmtEffect (inl (Fin (-1))) OnAgent "food";
    changeAmtEffect (inr (Fin (-4), Fin 0, Fin 100)) OnAgent "hunger"
  ];
|}.

Definition ambient : list Action := [fireDecay].

Definition planner : Planner.t :=
  Planner.setAmbientActions ambient
    (Planner.setActions [NOOP; getWood; eatFood; addWoodToFire] Planner.new).

Definition agent0 : Store :=
  pseudoAgentSetup "Agent"
    [("pos", VOther "0,0"); ("wood", VNum (Fin 0));
     ("food", VNum (Fin 20)); ("hunger", VNum (Fin 0))].

Definition world0 : Store :=
  pseudoAgentSetup "World"
    [("fire", VNum (Fin 9)); ("wood", VNum (Fin 50))].

Definition start : Concept := {| agent := agent0; world := world0 |}.

End World.

(** Reading a result that is known to be a value. *)
Definition is_ok {A} (r : Res A) : bool :=
  match r with Ok _ => true | Throw _ => false end.

Definition from_ok {A} (d : A) (r : Res A) : A :=
  match r with Ok a => a | Throw _ => d end.

(** ** Notions used by the statements *)

(** A computation that leaves the state as it found it, whatever it returns
    or raises. *)
Definition pure {S A} (m : St S A) : Prop := forall s, snd (m s) = s.

(** The body of the copying loop of [pseudoAgentFrom]. *)
Definition copy_key (agent : Store) (key : string) : St Store Store :=
  o <- PseudoAgent.get key ;;
  v <- unwrap o ;;
  '(_, agent') <- local (PseudoAgent.put key v) agent ;;
  ret agent'.

Definition target_store (on : Target) (c : Concept) : Store :=
  match on with OnAgent => agent c | OnWorld => world c end.

Definition with_target (on : Target) (s : Store) (c : Concept) : Concept :=
  match on with
  | OnAgent => {| agent := s; world := world c |}
  | OnWorld => {| agent := agent c; world := s |}
  end.

(** ** The search as a function of the contents of [agent] and [world] *)

Definition res_bind {A B} (r : Res A) (f : A -> Res B) : Res B :=
  match r with
  | Ok a => f a
  | Throw e => Throw e
  end.

(** What a loop gathers that appends the yield of each element; the first
    exception ends it. *)
Fixpoint collect {A C} (g : A -> Res (list C)) (xs : list A) : Res (list C) :=
  match xs with
  | [] => Ok []
  | x :: xs' =>
      res_bind (g x) (fun ys =>
      res_bind (collect g xs') (fun zs => Ok (ys ++ zs)))
  end.

Section SearchView.
Variable this : Planner.t.

(** The contents of fresh clones of [c] once [simulate_in_place] has run
    [plan] on them. *)
Definition replay (plan : list Action) (c : Concept) : Res Concept :=
  match Planner.simulate_in_place this plan c with
  | (Ok _, sim) => Ok sim
  | (Throw e, _) => Throw e
  end.

(** [action.canPerform] on clones that replayed [plan]. *)
Definition performable (plan : list Action) (c : Concept) (action : Action)
  : Res bool :=
  res_bind (replay plan c) (fun sim => fst (Action.canPerform action sim)).

Definition candidate (plan : list Action) (c : Concept) (action : Action)
  : Res (list (list Action)) :=
  res_bind (performable plan c action)
    (fun ok => Ok (if ok then [plan ++ [action]] else [])).

(** The entry pushed for a leaf plan. *)
Definition scored (c : Concept) (leaf : list Action)
  : Res (list Introspected) :=
  res_bind (replay leaf c) (fun sim =>
    Ok [{| Introspected.plan := leaf;
           Introspected.agent := agent sim;
           Introspected.world := world sim |}]).

Fixpoint search (goal : Goal) (plan : list Action) (depth : nat)
    (c : Concept) : Res (list (list Action)) :=
  match depth with
  | O => Ok [plan]
  | S depth' =>
      res_bind
        (collect (candidate plan c)
           (filter (fun act => Planner.not_tail plan act)
              (Planner.actions this)))
        (fun plans =>
      res_bind
        (collect (fun p => res_bind (search goal p depth' c)
                              (collect (scored c)))
           (rev plans))
        (fun introspected =>
      Ok (map Introspected.plan
            (take 3 (js_sort (Planner.rank goal) introspected)))))
  end.
End SearchView.

(** ** Notions for the comparison of concepts *)

Definition invert (c : Comparison) : Comparison :=
  match c with
  | GT => LT
  | LT => GT
  | EQ => EQ
  end.

(** The number of expectations whose [compare] answers [side]. *)
Definition count_votes (a b : Concept) (side : Comparison) (l : list Expects)
  : nat :=
  length (filter (fun e => bool_decide (Expects.compare e a b = side)) l).

Definition votes (goal : Goal) (a b : Concept) (side : Comparison) : nat :=
  count_votes a b side (Goal.expectations goal).

(** The body of the loop of [goalCmp]. *)
Definition tally_step (a b : Concept) (acc : Z * Z) (expec : Expects) : Z * Z :=
  let '(expectsA, expectsB) := acc in
  match Expects.compare expec a b with
  | GT => (expectsA + 1, expectsB)
  | LT => (expectsA, expectsB + 1)
  | EQ => (expectsA, expectsB)
  end%Z.

Definition antisymmetric (e : Expects) : Prop :=
  forall a b, Expects.compare e a b = invert (Expects.compare e b a).

(** A goal whose single expectation prefers its first argument, whatever
    the concepts. *)
Definition biasedGoal : Goal :=
  GoalBuilder.build
    (GoalBuilder.expect
       (fun b => ExpectBuilder.build
                   (ExpectBuilder.comparer (fun _ _ => GT)
                      (ExpectBuilder.name "first" b)))
       (GoalBuilder.name "biased" goalBuilder)).

(** ** Inputs used as examples *)

Module Examples.

(** The demo planner without the no-op action. *)
Definition strictPlanner : Planner.t :=
  Planner.setAmbientActions World.ambient
    (Planner.setActions [World.getWood; World.eatFood; World.addWoodToFire]
       Planner.new).

(** A world without wood, an agent that carries none and is not hungry. *)
Definition barren : Concept := {|
  agent := pseudoAgentSetup "Agent"
    [("wood", VNum (Fin 0)); ("food", VNum (Fin 20));
     ("hunger", VNum (Fin 0))];
  world := pseudoAgentSetup "World"
    [("fire", VNum (Fin 9)); ("wood", VNum (Fin 0))];
|}.

(** An action that only makes the agent hungrier. *)
Definition rest : Action := {|
  Action.ref := 5;
  Action.name := "rest";
  Action.cost := 1;
  Action.canPerform := ret true;
  Action.effects := [changeAmtEffect (inl (Fin 1)) OnAgent "hunger"];
|}.

Definition idlePlanner : Planner.t :=
  Planner.setActions [NOOP; rest] Planner.new.

Definition starvingGoal : Goal :=
  GoalBuilder.build
    (GoalBuilder.expect (fun _ => World.NotStarving)
       (GoalBuilder.name "eat" goalBuilder)).

(** The demo world with a fire ten units higher. *)
Definition warmer : Store := <["fire" := VNum (Fin 19)]> World.world0.

(** The leaf plans of the demo found two actions deep. *)
Definition demo_leaves : list (list Action) :=
  from_ok []
    (fst (Planner.plan_introspection World.planner World.surviveGoal [] 2
            World.start)).

Definition hungry : Concept := {|
  agent := pseudoAgentSetup "Agent" [("hunger", VNum (Fin 60))];
  world := pseudoAgentSetup "World" [];
|}.

(** An action whose [canPerform] is not pure: asking empties the larder. *)
Definition glutton : Action := {|
  Action.ref := 6;
  Action.name := "glutton";
  Action.cost := 0;
  Action.canPerform :=
    on_agent (PseudoAgent.set "food" (VNum (Fin 0))) ;; ret true;
  Action.effects := [];
|}.

Definition gluttonPlanner : Planner.t :=
  Planner.setActions [NOOP; glutton] Planner.new.

End Examples.

(** The premise of the infeasibility property of the specification: no
    effect of a registered action has a [check] whose concept an unmet
    expectation ranks [GT] against the current state. *)
Definition no_effect_ranks_GT (this : Planner.t) (goal : Goal) (c : Concept)
  : Prop :=
  forall a fx hyp e,
    a ∈ Planner.actions this ->
    fx ∈ Action.effects a ->
    fst (ActionEffect.check fx c) = Ok (Some hyp) ->
    e ∈ Goal.expectations goal ->
    fst (Expects.check e c) = Ok false ->
    Expects.compare e hyp c <> GT.

(** ** Notions for the ranking of leaf plans *)

(** A result that is the value [true]. *)
Definition holds (r : Res bool) : bool :=
  match r with Ok true => true | _ => false end.

(** The candidate plans of one level: the plan extended by each registered
    action that differs from its tail and can be performed once the plan has
    been replayed. *)
Definition candidates (this : Planner.t) (plan : list Action) (c : Concept)
  : list (list Action) :=
  map (fun a => plan ++ [a])
    (filter (fun a => holds (performable this plan c a))
       (filter (fun act => Planner.not_tail plan act) (Planner.actions this))).

(** [e] is the entry of [leaf]: the leaf with the stores its replay on
    fresh clones of [c] ends in. *)
Definition entry_of (this : Planner.t) (c : Concept) (leaf : list Action)
    (e : Introspected) : Prop :=
  Introspected.plan e = leaf /\
  replay this leaf c
  = Ok {| agent := Introspected.agent e; world := Introspected.world e |}.

(** A comparator that orders the elements of [l]: a pair it puts one way is
    not put the other way, and [<= 0] is transitive. *)
Definition consistent {A} (cmp : A -> A -> Z) (l : list A) : Prop :=
  (forall x y, x ∈ l -> y ∈ l -> (0 < cmp x y)%Z -> (cmp y x <= 0)%Z) /\
  (forall x y z, x ∈ l -> y ∈ l -> z ∈ l ->
     (cmp x y <= 0)%Z -> (cmp y z <= 0)%Z -> (cmp x z <= 0)%Z).

(** [x] ranks no later than [y]: descending by [goalCmp] on the stores the
    two leaves end in, ties broken by ascending [planCost]. *)
Definition ranks_no_later (goal : Goal) (x y : Introspected) : Prop :=
  match goalCmp goal (Introspected.agent x) (Introspected.world x)
                     (Introspected.agent y) (Introspected.world y) with
  | GT => True
  | EQ => (planCost (Introspected.plan x) <= planCost (Introspected.plan y))%Z
  | LT => False
  end.

(** The ranking orders the entries of [l]: [goalCmp] answers a swapped pair
    with the inverse, and ranking no later is transitive. On such entries
    the comparator of the sort is a consistent one, for which the language
    fixes the sorted order. *)
Definition orders (goal : Goal) (l : list Introspected) : Prop :=
  (forall x y, x ∈ l -> y ∈ l ->
     goalCmp goal (Introspected.agent x) (Introspected.world x)
                  (Introspected.agent y) (Introspected.world y)
     = invert (goalCmp goal (Introspected.agent y) (Introspected.world y)
                            (Introspected.agent x) (Introspected.world x))) /\
  (forall x y z, x ∈ l -> y ∈ l -> z ∈ l ->
     ranks_no_later goal x y -> ranks_no_later goal y z ->
     ranks_no_later goal x z).

(** Four ways to go, three judges. *)
Module Crossroads.

(** An action that raises the three marks of the agent. *)
Definition way (ref : nat) (name : string) (p q r : Z) : Action := {|
  Action.ref := ref;
  Action.name := name;
  Action.cost := 1;
  Action.canPerform := ret true;
  Action.effects := [
    changeAmtEffect (inl (Fin p)) OnAgent "p";
    changeAmtEffect (inl (Fin q)) OnAgent "q";
    changeAmtEffect (inl (Fin r)) OnAgent "r"
  ];
|}.

Definition north : Action := way 11 "north" 4 1 2.
Definition east : Action := way 12 "east" 3 4 1.
Definition south : Action := way 13 "south" 2 3 4.
Definition west : Action := way 14 "west" 1 2 3.

Definition planner : Planner.t :=
  Planner.setActions [north; east; south; west] Planner.new.

Definition start : Concept := {|
  agent := pseudoAgentSetup "Agent"
    [("p", VNum (Fin 0)); ("q", VNum (Fin 0)); ("r", VNum (Fin 0))];
  world := pseudoAgentSetup "World" [];
|}.

(** An expectation on one mark of the agent: met from 5 on, the concept
    with the higher mark ranks first. *)
Definition judge (mark : string) : Expects :=
  ExpectBuilder.build
    (ExpectBuilder.comparer
       (fun a b => numCmp (World.read (agent a) mark)
                          (World.read (agent b) mark))
       (ExpectBuilder.checker
          (m <- World.get_num OnAgent mark ;; ret (js_ge m (Fin 5)))
          (ExpectBuilder.prop mark
             (ExpectBuilder.target OnAgent
                (ExpectBuilder.name mark ExpectBuilder.new))))).

(** One judge: the ranking is the order of the mark [p]. *)
Definition oneJudge : Goal :=
  GoalBuilder.build
    (GoalBuilder.expect (fun _ => judge "p")
       (GoalBuilder.name "one" goalBuilder)).

(** Three judges, a majority vote: north beats east, east beats south,
    south beats west and west beats north. *)
Definition threeJudges : Goal :=
  GoalBuilder.build
    (GoalBuilder.expect (fun _ => judge "r")
       (GoalBuilder.expect (fun _ => judge "q")
          (GoalBuilder.expect (fun _ => judge "p")
             (GoalBuilder.name "three" goalBuilder)))).

(** The entry of the plan that takes one way. *)
Definition arrived (a : Action) (p q r : Z) : Introspected := {|
  Introspected.plan := [a];
  Introspected.agent := pseudoAgentSetup "Agent"
    [("p", VNum (Fin p)); ("q", VNum (Fin q)); ("r", VNum (Fin r))];
  Introspected.world := pseudoAgentSetup "World" [];
|}.

Definition atNorth : Introspected := arrived north 4 1 2.
Definition atEast : Introspected := arrived east 3 4 1.
Definition atSouth : Introspected := arrived south 2 3 4.
Definition atWest : Introspected := arrived west 1 2 3.

(** The array [introspected] of the call at depth 1 from the empty plan:
    the candidates are taken last first. *)
Definition entries : list Introspected := [atWest; atSouth; atEast; atNorth].

(** What the call returns with one judge. *)
Definition top : list (list Action) :=
  from_ok []
    (fst (Planner.plan_introspection planner oneJudge [] 1 start)).

(** What it returns with three; which three is up to the sort. *)
Definition voted : list (list Action) :=
  from_ok []
    (fst (Planner.plan_introspection planner threeJudges [] 1 start)).

End Crossroads.

(** ** Notions for the further properties *)

(** The triple [(amount, min, max)] that [changeAmtEffect] reads from its
    first argument, and the number its [apply] writes over the value [v]. *)
Definition amount_of (a : num + num * num * num) : num * num * num :=
  match a with
  | inl n => (n, NegInf, PosInf)
  | inr t => t
  end.

Definition clamped (a : num + num * num * num) (v : value) : num :=
  let '(amount, min, max) := amount_of a in
  math_min (math_max (plus_amount v amount) min) max.

(** Every action of [ext], the part a search added to [plan], passed the
    candidate test of its level: it is registered, differs from the action
    before it, and [canPerform] held on clones that replayed what precedes
    it. *)
Definition accepted (this : Planner.t) (c : Concept) (plan ext : list Action)
  : Prop :=
  forall pre a post, ext = pre ++ a :: post ->
    a ∈ Planner.actions this /\
    Planner.not_tail (plan ++ pre) a = true /\
    performable this (plan ++ pre) c a = Ok true.

(** No action is followed by itself. *)
Definition no_adjacent_repeat (p : list Action) : Prop :=
  forall i a b, p !! i = Some a -> p !! S i = Some b ->
    Action.ref a <> Action.ref b.

(** The quantities of the demo are integers, none of the stocks is
    negative. *)
Definition stocked (c : Concept) : Prop :=
  exists aw f h ww fi : Z,
    agent c !! "wood" = Some (VNum (Fin aw)) /\
    agent c !! "food" = Some (VNum (Fin f)) /\
    agent c !! "hunger" = Some (VNum (Fin h)) /\
    world c !! "wood" = Some (VNum (Fin ww)) /\
    world c !! "fire" = Some (VNum (Fin fi)) /\
    (0 <= aw)%Z /\ (0 <= f)%Z /\ (0 <= h)%Z /\ (0 <= ww)%Z.

Module Scenes.

(** An expectation that wants the agent hungry: met from 62 on, the
    hungrier concept ranks first. *)
Definition Tired : Expects :=
  ExpectBuilder.build
    (ExpectBuilder.comparer
       (fun a b => numCmp (World.read (agent a) "hunger")
                          (World.read (agent b) "hunger"))
       (ExpectBuilder.checker
          (hunger <- World.get_num OnAgent "hunger" ;;
           ret (js_ge hunger (Fin 62)))
          (ExpectBuilder.prop "hunger"
             (ExpectBuilder.target OnAgent
                (ExpectBuilder.name "tired" ExpectBuilder.new))))).

Definition tiredGoal : Goal :=
  GoalBuilder.build
    (GoalBuilder.expect (fun _ => Tired)
       (GoalBuilder.name "tire" goalBuilder)).

(** What [plan] and [introspect] answer on these inputs. *)
Definition tired_plan : list Action :=
  default []
    (from_ok None
       (fst (Planner.plan Examples.idlePlanner tiredGoal Examples.hungry))).

Definition demo_first : option Action :=
  from_ok None
    (fst (Planner.introspect World.planner World.surviveGoal [] 5 World.start)).

Definition idle_leaves : list (list Action) :=
  from_ok []
    (fst (Planner.plan_introspection Examples.idlePlanner
            Examples.starvingGoal [] 2 Examples.hungry)).

(** An action that needs a fire, in a world whose fire decays: [canPerform]
    holds on a fire of 1 and fails once the ambient decay has run. *)
Definition warm : Action := {|
  Action.ref := 7;
  Action.name := "warm";
  Action.cost := 1;
  Action.canPerform :=
    fire <- World.get_num OnWorld "fire" ;; ret (js_ge fire (Fin 1));
  Action.effects := [];
|}.

Definition chillyPlanner : Planner.t :=
  Planner.setAmbientActions World.ambient
    (Planner.setActions [warm] Planner.new).

Definition embers : Concept := {|
  agent := pseudoAgentSetup "Agent" [];
  world := pseudoAgentSetup "World" [("fire", VNum (Fin 1))];
|}.

(** The demo with one unit of food left and an agent hungry enough to eat
    it. *)
Definition peckish : Concept := {|
  agent := pseudoAgentSetup "Agent"
    [("pos", VOther "0,0"); ("wood", VNum (Fin 0));
     ("food", VNum (Fin 1)); ("hunger", VNum (Fin 3))];
  world := World.world0;
|}.

(** Two entries of [introspected] for the demo goal. *)
Definition cold : Introspected := {|
  Introspected.plan := [];
  Introspected.agent := World.agent0;
  Introspected.world := World.world0;
|}.

Definition warmed : Introspected := {|
  Introspected.plan := [World.addWoodToFire];
  Introspected.agent := World.agent0;
  Introspected.world := Examples.warmer;
|}.

End Scenes.

(** * Verification *)

(** ** The monad *)

Section MonadFacts.
Context {S : Type}.

Lemma bind_ok {A B} (m : St S A) (f : A -> St S B) s a s' :
  m s = (Ok a, s') -> bind m f s = f a s'.
Proof. intros H. unfold bind. by rewrite H. Qed.

Lemma pure_ret {A} (a : A) : pure (@ret S A a).
Proof. done. Qed.

Lemma pure_bind {A B} (m : St S A) (f : A -> St S B) :
  pure m -> (forall a, pure (f a)) -> pure (bind m f).
Proof.
  intros Hm Hf s. unfold bind. specialize (Hm s).
  destruct (m s) as [[a|e] s1]; simpl in *; subst; [apply Hf | done].
Qed.

Lemma pure_local {L A} (m : St L A) (loc : L) : pure (@local S L A m loc).
Proof. intros s. unfold local. by destruct (m loc) as [[a|e] l']. Qed.

End MonadFacts.

(** ** Stores *)

Lemma get_eq key (s : Store) : PseudoAgent.get key s = (Ok (s !! key), s).
Proof.
  unfold PseudoAgent.get, bind, getS. by destruct (s !! key).
Qed.

Lemma put_fresh key v (s : Store) :
  s !! key = None -> PseudoAgent.put key v s = (Ok true, <[key := v]> s).
Proof. intros H. unfold PseudoAgent.put, bind, getS. by rewrite H. Qed.

Lemma put_present key v (s : Store) :
  is_Some (s !! key) -> PseudoAgent.put key v s = (Ok false, s).
Proof. intros [w H]. unfold PseudoAgent.put, bind, getS. by rewrite H. Qed.

Lemma set_present key v (s : Store) :
  is_Some (s !! key) -> PseudoAgent.set key v s = (Ok true, <[key := v]> s).
Proof. intros [w H]. unfold PseudoAgent.set, bind, getS. by rewrite H. Qed.

Lemma set_absent key v (s : Store) :
  s !! key = None -> PseudoAgent.set key v s = (Ok false, s).
Proof. intros H. unfold PseudoAgent.set, bind, getS. by rewrite H. Qed.

Lemma keys_eq (s : Store) :
  PseudoAgent.keys s = (Ok (map fst (map_to_list s)), s).
Proof. done. Qed.

Lemma elem_of_keys (s : Store) k :
  k ∈ map fst (map_to_list s) <-> is_Some (s !! k).
Proof.
  rewrite list_elem_of_fmap. split.
  - intros [[k' v] [-> H]]. apply elem_of_map_to_list in H. eauto.
  - intros [v H]. exists (k, v). split; [done|]. by apply elem_of_map_to_list.
Qed.

Lemma copy_key_eq (acc s : Store) k v :
  s !! k = Some v -> acc !! k = None ->
  copy_key acc k s = (Ok (<[k := v]> acc), s).
Proof.
  intros Hv Hacc. unfold copy_key.
  rewrite (bind_ok _ _ s (Some v) s) by (by rewrite get_eq, Hv).
  rewrite (bind_ok _ _ s v s) by done.
  unfold bind, local. by rewrite put_fresh.
Qed.

Lemma copy_loop ks : forall (acc s : Store),
  NoDup ks ->
  (forall k, k ∈ ks -> is_Some (s !! k) /\ acc !! k = None) ->
  exists acc', foldM copy_key acc ks s = (Ok acc', s) /\
    forall k, acc' !! k = if decide (k ∈ ks) then s !! k else acc !! k.
Proof.
  induction ks as [|k ks IH]; intros acc s Hnd Hks.
  - exists acc. split; [done|]. intros k. case_decide; [set_solver | done].
  - apply NoDup_cons in Hnd as [Hk Hnd].
    destruct (Hks k) as [[v Hv] Hacc]; [left|].
    destruct (IH (<[k := v]> acc) s Hnd) as (acc' & Hrun & Hlook).
    { intros k' Hk'. destruct (Hks k') as [? ?]; [by right|]. split; [done|].
      rewrite lookup_insert_ne; [done|]. set_solver. }
    exists acc'. split.
    + cbn [foldM]. by rewrite (bind_ok _ _ _ _ _ (copy_key_eq acc s k v Hv Hacc)).
    + intros k'. rewrite Hlook.
      destruct (decide (k' = k)) as [->|Hne].
      * repeat case_decide; try set_solver. by rewrite lookup_insert_eq.
      * rewrite lookup_insert_ne by done. repeat case_decide; set_solver.
Qed.

(** A clone holds what its source holds, and the source is not written. *)
Lemma pseudoAgentFrom_eq name (s : Store) : pseudoAgentFrom name s = (Ok s, s).
Proof.
  unfold pseudoAgentFrom. rewrite (bind_ok _ _ s _ s (keys_eq s)).
  destruct (copy_loop (map fst (map_to_list s)) ∅ s) as (acc & Hrun & Hlook).
  - apply NoDup_fst_map_to_list.
  - intros k Hk. split; [by apply elem_of_keys | apply lookup_empty].
  - change (foldM copy_key (createPseudoAgent name) (map fst (map_to_list s)) s
            = (Ok s, s)).
    unfold createPseudoAgent, PseudoAgent.create. rewrite Hrun.
    f_equal. f_equal. apply map_eq. intros k. rewrite Hlook.
    case_decide as Hk; [done|].
    rewrite lookup_empty. symmetry. apply eq_None_not_Some.
    by rewrite <- elem_of_keys.
Qed.

Lemma concept_eta (c : Concept) : {| agent := agent c; world := world c |} = c.
Proof. by destruct c. Qed.

Lemma clone_agent name c : on_agent (pseudoAgentFrom name) c = (Ok (agent c), c).
Proof. unfold on_agent. rewrite pseudoAgentFrom_eq. by rewrite concept_eta. Qed.

Lemma clone_world name c : on_world (pseudoAgentFrom name) c = (Ok (world c), c).
Proof. unfold on_world. rewrite pseudoAgentFrom_eq. by rewrite concept_eta. Qed.

(** C7 (store contract). On a store where [k] is absent, [put k v] returns
    [true] and [get k] then returns [Some v]; a second [put k v2] returns
    [false] and leaves the store (so [get k] is still [Some v]); [set k v2]
    on the now present key returns [true] and [get k] then returns
    [Some v2]; on the original store [set k v2] returns [false] and leaves
    the store unchanged, and [get k] returns [None]. No call raises. *)
Theorem store_contract (s : Store) (k : string) (v v2 : value) :
  s !! k = None ->
  PseudoAgent.put k v s = (Ok true, <[k := v]> s) /\
  PseudoAgent.get k (<[k := v]> s) = (Ok (Some v), <[k := v]> s) /\
  PseudoAgent.put k v2 (<[k := v]> s) = (Ok false, <[k := v]> s) /\
  PseudoAgent.set k v2 (<[k := v]> s) = (Ok true, <[k := v2]> (<[k := v]> s)) /\
  PseudoAgent.get k (<[k := v2]> (<[k := v]> s))
    = (Ok (Some v2), <[k := v2]> (<[k := v]> s)) /\
  PseudoAgent.set k v2 s = (Ok false, s) /\
  PseudoAgent.get k s = (Ok None, s).
Proof.
  intros Hk. repeat split.
  - by apply put_fresh.
  - by rewrite get_eq, lookup_insert_eq.
  - apply put_present. by rewrite lookup_insert_eq.
  - apply set_present. by rewrite lookup_insert_eq.
  - by rewrite get_eq, lookup_insert_eq.
  - by apply set_absent.
  - by rewrite get_eq, Hk.
Qed.

Lemma store_contract_witness :
  World.world0 !! "ash" = None /\
  PseudoAgent.put "ash" (VNum (Fin 1)) World.world0
    = (Ok true, <["ash" := VNum (Fin 1)]> World.world0) /\
  PseudoAgent.set "ash" (VNum (Fin 2)) World.world0 = (Ok false, World.world0).
Proof.
  assert (H : World.world0 !! "ash" = None) by (vm_compute; reflexivity).
  pose proof (store_contract World.world0 "ash" (VNum (Fin 1)) (VNum (Fin 2)) H)
    as C.
  split; [exact H|]. split; [apply C|]. apply C.
Defined.

Lemma on_target_eq {A} on (m : St Store A) c :
  on_target on m c =
    (fst (m (target_store on c)), with_target on (snd (m (target_store on c))) c).
Proof.
  destruct on; unfold on_target, on_agent, on_world; simpl;
    by destruct (m _).
Qed.

Lemma clamp_finite (v delta lo hi : Z) :
  math_min (math_max (js_add (Fin v) (Fin delta)) (Fin lo)) (Fin hi)
  = Fin (Z.min (Z.max (v + delta) lo) hi).
Proof. reflexivity. Qed.



(** ** Loops that gather *)

Lemma foldM_collect {S A C} (f : list C -> A -> St S (list C))
    (g : A -> Res (list C)) (s : S) xs :
  (forall acc x, x ∈ xs ->
     f acc x s = (res_bind (g x) (fun ys => Ok (acc ++ ys)), s)) ->
  forall acc,
    foldM f acc xs s = (res_bind (collect g xs) (fun ys => Ok (acc ++ ys)), s).
Proof.
  induction xs as [|x xs IH]; intros Hf acc; simpl.
  - by rewrite app_nil_r.
  - unfold bind. rewrite Hf by left.
    destruct (g x) as [ys|e]; simpl; [|done].
    rewrite IH by (intros; apply Hf; by right).
    destruct (collect g xs) as [zs|e]; simpl; [|done].
    by rewrite app_assoc.
Qed.

Lemma collect_ok {A C} (g : A -> Res (list C)) xs ys :
  collect g xs = Ok ys <->
  exists yss, Forall2 (fun x zs => g x = Ok zs) xs yss /\ ys = concat yss.
Proof.
  revert ys. induction xs as [|x xs IH]; intros ys; simpl.
  - split.
    + intros [= <-]. exists []. by split; [constructor|].
    + intros (yss & H & ->). by inversion H.
  - split.
    + destruct (g x) as [zs|e] eqn:Hg; simpl; [|done].
      destruct (collect g xs) as [ws|e] eqn:Hc; simpl; [|done].
      intros [= <-]. destruct (proj1 (IH ws) eq_refl) as (yss & H & ->).
      exists (zs :: yss). split; [by constructor | done].
    + intros (yss & H & ->). inversion H as [|? zs ? yss' Hg H']; subst.
      rewrite Hg. simpl.
      rewrite (proj2 (IH (concat yss'))) by eauto. done.
Qed.

Lemma collect_elem {A C} (g : A -> Res (list C)) xs ys y :
  collect g xs = Ok ys -> y ∈ ys ->
  exists x zs, x ∈ xs /\ g x = Ok zs /\ y ∈ zs.
Proof.
  intros (yss & H & ->)%collect_ok Hy.
  apply list_elem_of_In, in_concat in Hy as (zs & Hzs & Hy).
  apply list_elem_of_In in Hzs, Hy.
  apply list_elem_of_lookup in Hzs as [i Hi].
  destruct (Forall2_lookup_r _ _ _ _ _ H Hi) as (x & Hx & Hg).
  exists x, zs. split; [|done]. apply list_elem_of_lookup. eauto.
Qed.

(** ** The search reads, and never writes, the stores it is given *)

Section SearchFacts.
Variable this : Planner.t.

Lemma candidate_step plan name1 name2 plans action c :
  (simAgent <- on_agent (pseudoAgentFrom name1) ;;
   simWorld <- on_world (pseudoAgentFrom name2) ;;
   '(_, sim) <- local (Planner.simulate_in_place this plan)
     {| agent := simAgent; world := simWorld |} ;;
   '(ok, _) <- local (Action.canPerform action) sim ;;
   if negb ok then ret plans else ret (plans ++ [plan ++ [action]])) c
  = (res_bind (candidate this plan c action) (fun ys => Ok (plans ++ ys)), c).
Proof.
  erewrite bind_ok by apply clone_agent.
  erewrite bind_ok by apply clone_world.
  rewrite concept_eta.
  unfold candidate, performable, replay, bind, local.
  destruct (Planner.simulate_in_place this plan c) as [[b|e] sim]; [|done].
  simpl. destruct (Action.canPerform action sim) as [[[]|e] ?]; simpl; try done.
  by rewrite app_nil_r.
Qed.

Lemma scored_step name1 name2 introspected introsPlan c :
  (simAgent <- on_agent (pseudoAgentFrom name1) ;;
   simWorld <- on_world (pseudoAgentFrom name2) ;;
   '(_, sim) <- local (Planner.simulate_in_place this introsPlan)
     {| agent := simAgent; world := simWorld |} ;;
   ret (introspected ++
          [{| Introspected.plan := introsPlan;
              Introspected.agent := agent sim;
              Introspected.world := world sim |}])) c
  = (res_bind (scored this c introsPlan)
       (fun ys => Ok (introspected ++ ys)), c).
Proof.
  erewrite bind_ok by apply clone_agent.
  erewrite bind_ok by apply clone_world.
  rewrite concept_eta.
  unfold scored, replay, bind, local.
  by destruct (Planner.simulate_in_place this introsPlan c) as [[b|e] sim].
Qed.

Lemma plan_introspection_eq goal depth : forall plan c,
  Planner.plan_introspection this goal plan depth c
  = (search this goal plan depth c, c).
Proof.
  induction depth as [|d IH]; intros plan c; [done|].
  cbn [Planner.plan_introspection search].
  unfold bind at 1.
  rewrite (foldM_collect _ (candidate this plan c))
    by (intros; apply candidate_step).
  simpl.
  destruct (collect (candidate this plan c) _) as [plans|e]; simpl; [|done].
  unfold bind at 1.
  rewrite (foldM_collect _
    (fun p => res_bind (search this goal p d c) (collect (scored this c)))).
  - simpl. by destruct (collect _ (rev plans)).
  - intros acc p _. unfold bind at 1. rewrite IH.
    destruct (search this goal p d c) as [ls|e]; simpl; [|done].
    apply foldM_collect. intros; apply scored_step.
Qed.
End SearchFacts.
(** ** The sort *)

Section SortFacts.
Context {A : Type} (c : A -> A -> Z).

Lemma js_insert_perm x l : js_insert c x l ≡ₚ x :: l.
Proof.
  induction l as [|y l IH]; simpl; [done|].
  destruct (0 <? c x y)%Z; [|done].
  rewrite IH. apply Permutation_swap.
Qed.

Lemma js_sort_perm l : js_sort c l ≡ₚ l.
Proof.
  induction l as [|x l IH]; simpl; [done|].
  by rewrite js_insert_perm, IH.
Qed.

Lemma js_sort_elem x l : x ∈ js_sort c l <-> x ∈ l.
Proof. by rewrite js_sort_perm. Qed.

End SortFacts.

Section LeafFacts.
Variable this : Planner.t.

Lemma collect_scored_plans c ls : forall es,
  collect (scored this c) ls = Ok es -> map Introspected.plan es = ls.
Proof.
  induction ls as [|l ls IH]; intros es; simpl.
  - by intros [= <-].
  - unfold scored at 1. destruct (replay this l c) as [sim|e]; simpl; [|done].
    destruct (collect (scored this c) ls) as [zs|e]; simpl; [|done].
    intros [= <-]. simpl. f_equal. by apply IH.
Qed.

Lemma candidate_elem plan c action ys p :
  candidate this plan c action = Ok ys -> p ∈ ys ->
  p = plan ++ [action] /\ performable this plan c action = Ok true.
Proof.
  unfold candidate. destruct (performable this plan c action) as [[]|e];
    simpl; intros [= <-] Hp; [|by apply elem_of_nil in Hp].
  by apply list_elem_of_singleton in Hp.
Qed.

(** Every leaf is the plan followed by [depth] registered actions. *)
Lemma search_leaves goal depth : forall plan c res,
  search this goal plan depth c = Ok res ->
  Forall (fun l => exists ext, l = plan ++ ext /\ length ext = depth /\
                     Forall (fun a => a ∈ Planner.actions this) ext) res.
Proof.
  induction depth as [|d IH]; intros plan c res.
  - intros [= <-]. constructor; [|done]. exists []. by rewrite app_nil_r.
  - cbn [search].
    destruct (collect (candidate this plan c) _) as [plans|e] eqn:Hc;
      simpl; [|done].
    destruct (collect _ (rev plans)) as [entries|e] eqn:He; simpl; [|done].
    intros [= <-]. apply Forall_forall. intros l Hl.
    apply list_elem_of_fmap in Hl as (en & -> & Hen).
    apply elem_of_take in Hen as (i & Hen & _).
    apply list_elem_of_lookup_2, js_sort_elem in Hen.
    destruct (collect_elem _ _ _ _ He Hen) as (p & zs & Hp & Hzs & Henz).
    destruct (search this goal p d c) as [ls|e] eqn:Hs; simpl in Hzs; [|done].
    apply collect_scored_plans in Hzs. subst ls.
    apply IH in Hs. rewrite Forall_forall in Hs.
    destruct (Hs (Introspected.plan en)) as (ext & Hext & Hlen & Hall).
    { apply list_elem_of_fmap. eauto. }
    apply list_elem_of_In, in_rev, list_elem_of_In in Hp.
    destruct (collect_elem _ _ _ _ Hc Hp) as (a & ys & Ha & Hys & Hpy).
    apply candidate_elem with (p := p) in Hys as [-> _]; [|done].
    apply list_elem_of_filter in Ha as [_ Ha].
    exists (a :: ext). rewrite Hext, <- app_assoc. simpl.
    split; [done|]. split; [by rewrite Hlen|]. by constructor.
Qed.
End LeafFacts.
Section PlannerFacts.
Variable this : Planner.t.

Lemma search_unconfigured goal plan depth c :
  1 <= depth -> search Planner.new goal plan depth c = Ok [].
Proof. destruct depth; [lia | done]. Qed.

Lemma introspect_pure goal plan depth :
  pure (Planner.introspect this goal plan depth).
Proof.
  intros c. unfold Planner.introspect.
  destruct (depth <=? 0); [done|].
  unfold bind. rewrite plan_introspection_eq.
  destruct (search this goal plan depth c) as [[|newPlan ?]|e]; try done.
  destruct (length newPlan <=? length plan); [done|].
  by destruct (newPlan !! length plan).
Qed.


Lemma simulate_pure goal plan : pure (Planner.simulate this goal plan).
Proof.
  intros c. unfold Planner.simulate.
  erewrite bind_ok by apply clone_agent.
  erewrite bind_ok by apply clone_world.
  apply pure_bind; [apply pure_local|].
  intros [[] f]; simpl; [|apply pure_ret].
  apply pure_bind; [apply pure_local|]. intros [? ?]. apply pure_ret.
Qed.

Hypothesis canPerform_pure :
  forall a, a ∈ Planner.actions this -> pure (Action.canPerform a).


End PlannerFacts.

(** A goal without expectations plans to the no-op action. *)
Lemma plan_no_expectations this goal c :
  Goal.expectations goal = [] ->
  Planner.plan this goal c = (Ok (Some [NOOP]), c).
Proof. intros H. unfold Planner.plan. by rewrite H. Qed.


(** The hypothesis of purity is needed: [plan] calls [canPerform] of the
    action it appends on the real stores. *)
Lemma impure_canPerform_writes :
  agent (snd (Planner.plan Examples.gluttonPlanner World.surviveGoal World.start))
    !! "food" = Some (VNum (Fin 0)) /\
  agent World.start !! "food" = Some (VNum (Fin 20)).
Proof. split; vm_compute; reflexivity. Qed.

(** C10 (leaves have the full depth). For [depth >= 1] every plan returned
    by [plan_introspection] is the input plan followed by exactly [depth]
    further actions, so the first plan of a result that is not empty is
    longer than the input plan and extends it; and the result may be empty:
    it is for a planner without registered actions. *)
Theorem leaves_have_full_depth (this : Planner.t) (goal : Goal)
    (plan : list Action) (depth : nat) (c : Concept)
    (res : list (list Action)) :
  1 <= depth ->
  fst (Planner.plan_introspection this goal plan depth c) = Ok res ->
  Forall (fun p => length p = length plan + depth /\ plan `prefix_of` p) res /\
  (forall p, head res = Some p -> length plan < length p /\ plan `prefix_of` p) /\
  fst (Planner.plan_introspection Planner.new goal plan depth c) = Ok [].
Proof.
  intros Hd. rewrite !plan_introspection_eq. simpl. intros Hs.
  apply search_leaves in Hs.
  assert (Forall (fun p => length p = length plan + depth /\
                           plan `prefix_of` p) res) as Hall.
  { eapply Forall_impl; [exact Hs|]. intros p (ext & -> & <- & _).
    split; [by rewrite length_app|]. by exists ext. }
  split; [done|]. split; [|by apply search_unconfigured].
  intros p Hp. destruct res as [|p' res]; [done|]. injection Hp as ->.
  apply Forall_cons in Hall as [[Hlen Hpre] _]. split; [lia|done].
Qed.

(** ** The demo world *)

Lemma get_pure key : pure (PseudoAgent.get key).
Proof. intros s. by rewrite get_eq. Qed.

Lemma on_target_pure {A} on (m : St Store A) : pure m -> pure (on_target on m).
Proof.
  intros Hm c. rewrite on_target_eq. simpl. rewrite Hm.
  destruct on, c; done.
Qed.

Lemma on_agent_pure {A} (m : St Store A) : pure m -> pure (on_agent m).
Proof. apply (on_target_pure OnAgent). Qed.

Lemma on_world_pure {A} (m : St Store A) : pure m -> pure (on_world m).
Proof. apply (on_target_pure OnWorld). Qed.

Lemma unwrap_pure {S A} (o : option A) : pure (@unwrap S A o).
Proof. by destruct o. Qed.

Lemma get_num_pure on key : pure (World.get_num on key).
Proof.
  apply pure_bind; [apply on_target_pure, get_pure|]. intros o.
  apply pure_bind; [apply unwrap_pure|]. intros v. apply pure_ret.
Qed.

Lemma demo_actions :
  Planner.actions World.planner
  = [NOOP; World.eatFood; World.addWoodToFire; World.getWood].
Proof. reflexivity. Qed.

Lemma demo_canPerform_pure a :
  a ∈ Planner.actions World.planner -> pure (Action.canPerform a).
Proof.
  rewrite demo_actions. intros Ha.
  repeat (apply elem_of_cons in Ha as [->|Ha]); [| | | |by apply elem_of_nil in Ha].
  - apply pure_ret.
  - apply pure_bind; [apply get_num_pure|]. intros ?.
    apply pure_bind; [apply get_num_pure|]. intros ?. apply pure_ret.
  - apply pure_bind; [apply on_agent_pure, get_pure|]. intros woodOpt.
    apply pure_bind; [apply on_agent_pure, get_pure|]. intros o.
    destruct (negb (is_some o)); [apply pure_ret|].
    apply pure_bind; [apply on_world_pure, get_pure|]. intros o'.
    destruct (negb (is_some o')); [apply pure_ret|].
    apply pure_bind; [apply unwrap_pure|]. intros [?|?]; apply pure_ret.
  - apply pure_bind; [apply on_world_pure, get_pure|]. intros o.
    destruct (negb (is_some o)); [apply pure_ret|].
    apply pure_bind; [apply unwrap_pure|]. intros [?|?]; apply pure_ret.
Qed.


Lemma ok_from_ok {A} (d : A) (r : Res A) :
  is_ok r = true -> r = Ok (from_ok d r).
Proof. by destruct r. Qed.

Lemma demo_leaves_ok :
  fst (Planner.plan_introspection World.planner World.surviveGoal [] 2
         World.start) = Ok Examples.demo_leaves.
Proof. apply ok_from_ok. vm_compute. reflexivity. Qed.

Lemma leaves_have_full_depth_witness :
  1 <= 2 /\
  fst (Planner.plan_introspection World.planner World.surviveGoal [] 2
         World.start) = Ok Examples.demo_leaves /\
  Forall (fun p => length p = 2) Examples.demo_leaves.
Proof.
  split; [lia|]. split; [exact demo_leaves_ok|].
  eapply Forall_impl.
  - exact (proj1 (leaves_have_full_depth World.planner World.surviveGoal []
                    2 World.start Examples.demo_leaves (le_S 1 1 (le_n 1))
                    demo_leaves_ok)).
  - intros p [Hlen _]. exact Hlen.
Defined.

(** ** [goalCmp] *)

Lemma count_votes_cons a b side e l :
  count_votes a b side (e :: l)
  = (if bool_decide (Expects.compare e a b = side) then 1 else 0)
    + count_votes a b side l.
Proof.
  unfold count_votes. rewrite filter_cons.
  destruct (decide _) as [H|H]; destruct (bool_decide _); simpl in *; done.
Qed.

Lemma tally a b l : forall x y,
  fold_left (tally_step a b) l (x, y)
  = (x + Z.of_nat (count_votes a b GT l), y + Z.of_nat (count_votes a b LT l))%Z.
Proof.
  induction l as [|e l IH]; intros x y.
  - unfold count_votes. simpl. f_equal; lia.
  - cbn [fold_left]. rewrite !count_votes_cons. unfold tally_step at 2.
    destruct (Expects.compare e a b) eqn:He; rewrite IH;
      repeat case_bool_decide; try done; f_equal; lia.
Qed.

Lemma count_votes_total a b l :
  count_votes a b GT l + count_votes a b LT l + count_votes a b EQ l = length l.
Proof.
  induction l as [|e l IH]; [done|].
  rewrite !count_votes_cons. simpl.
  destruct (Expects.compare e a b); repeat case_bool_decide; try done; lia.
Qed.

Lemma goalCmp_tally goal agentA worldA agentB worldB :
  let a := {| agent := agentA; world := worldA |} in
  let b := {| agent := agentB; world := worldB |} in
  goalCmp goal agentA worldA agentB worldB
  = if (Z.of_nat (votes goal a b LT) <? Z.of_nat (votes goal a b GT))%Z then GT
    else if (Z.of_nat (votes goal a b GT) <? Z.of_nat (votes goal a b LT))%Z
         then LT else EQ.
Proof.
  intros a b. unfold goalCmp.
  assert (E : forall l acc,
    fold_left
      (fun '(expectsA, expectsB) expec =>
         let comparison := Expects.compare expec a b in
         match comparison with
         | GT => (expectsA + 1, expectsB)
         | LT => (expectsA, expectsB + 1)
         | EQ => (expectsA, expectsB)
         end%Z) l acc = fold_left (tally_step a b) l acc).
  { induction l as [|e l IH]; intros [x y]; [done|]. simpl. by rewrite IH. }
  subst a b. rewrite E, tally. done.
Qed.

(** C5 (majority vote). [goalCmp] counts one point per expectation: side A
    gets the expectations whose [compare] answers [GT], side B those that
    answer [LT], and [EQ] gives no point. It returns [GT] iff A has strictly
    more points, [LT] iff B has, [EQ] on a tie; an expectation is counted
    once, in one of the three groups. *)
Theorem goalCmp_majority (goal : Goal) (agentA worldA agentB worldB : Store) :
  (goalCmp goal agentA worldA agentB worldB = GT <->
     votes goal {| agent := agentA; world := worldA |}
                {| agent := agentB; world := worldB |} LT
     < votes goal {| agent := agentA; world := worldA |}
                  {| agent := agentB; world := worldB |} GT) /\
  (goalCmp goal agentA worldA agentB worldB = LT <->
     votes goal {| agent := agentA; world := worldA |}
                {| agent := agentB; world := worldB |} GT
     < votes goal {| agent := agentA; world := worldA |}
                  {| agent := agentB; world := worldB |} LT) /\
  (goalCmp goal agentA worldA agentB worldB = EQ <->
     votes goal {| agent := agentA; world := worldA |}
                {| agent := agentB; world := worldB |} GT
     = votes goal {| agent := agentA; world := worldA |}
                  {| agent := agentB; world := worldB |} LT) /\
  votes goal {| agent := agentA; world := worldA |}
             {| agent := agentB; world := worldB |} GT
  + votes goal {| agent := agentA; world := worldA |}
               {| agent := agentB; world := worldB |} LT
  + votes goal {| agent := agentA; world := worldA |}
               {| agent := agentB; world := worldB |} EQ
  = length (Goal.expectations goal).
Proof.
  rewrite goalCmp_tally.
  set (a := {| agent := agentA; world := worldA |}).
  set (b := {| agent := agentB; world := worldB |}).
  split; [|split; [|split]].
  - repeat case_match; split; intros; try done; lia.
  - repeat case_match; split; intros; try done; lia.
  - repeat case_match; split; intros; try done; lia.
  - apply count_votes_total.
Qed.

Lemma votes_swap goal a b :
  (forall e, e ∈ Goal.expectations goal -> antisymmetric e) ->
  votes goal a b GT = votes goal b a LT /\ votes goal a b LT = votes goal b a GT.
Proof.
  unfold votes. induction (Goal.expectations goal) as [|e l IH]; intros H;
    [done|].
  destruct IH as [IH1 IH2]; [intros; apply H; by right|].
  pose proof (H e ltac:(left) a b) as He.
  rewrite !count_votes_cons, IH1, IH2, He.
  destruct (Expects.compare e b a); repeat case_bool_decide; done.
Qed.

(** C4, amended (antisymmetry of [goalCmp]). For a goal all of whose
    expectations have an antisymmetric [compare], that is
    [compare a b = invert (compare b a)], [goalCmp g A B] is the inversion
    of [goalCmp g B A], and comparing a state with itself gives [EQ]. *)
Theorem goalCmp_antisymmetric (goal : Goal)
    (agentA worldA agentB worldB : Store) :
  (forall e, e ∈ Goal.expectations goal -> antisymmetric e) ->
  goalCmp goal agentA worldA agentB worldB
    = invert (goalCmp goal agentB worldB agentA worldA) /\
  goalCmp goal agentA worldA agentA worldA = EQ.
Proof.
  intros H. rewrite !goalCmp_tally.
  set (a := {| agent := agentA; world := worldA |}).
  set (b := {| agent := agentB; world := worldB |}).
  destruct (votes_swap goal a b H) as [-> ->].
  destruct (votes_swap goal a a H) as [-> _].
  split; repeat case_match; try done; lia.
Qed.

(** C4 as stated fails: with an expectation whose [compare] always answers
    [GT], [goalCmp] of a state with itself is [GT], which is neither [EQ]
    nor its own inversion. *)
Lemma goalCmp_biased :
  goalCmp biasedGoal World.agent0 World.world0 World.agent0 World.world0 = GT /\
  goalCmp biasedGoal World.agent0 World.world0 World.agent0 World.world0
    <> invert (goalCmp biasedGoal World.agent0 World.world0
                 World.agent0 World.world0) /\
  goalCmp biasedGoal World.agent0 World.world0 World.agent0 World.world0 <> EQ.
Proof. by repeat split. Qed.

Ltac num_cases :=
  unfold numCmp, js_lt, js_le, js_gt, js_ge; simpl;
  repeat match goal with
         | |- context [(?x <? ?y)%Z] => destruct (Z.ltb_spec x y)
         | |- context [(?x <=? ?y)%Z] => destruct (Z.leb_spec x y)
         end; simpl; try done; try lia.

Lemma HealthyFire_antisymmetric : antisymmetric World.HealthyFire.
Proof.
  intros a b. simpl.
  generalize (World.read (world a) "fire") (World.read (world b) "fire")
             (World.read (agent a) "wood") (World.read (agent b) "wood").
  intros [| |fa|] [| |fb|] [| |wa|] [| |wb|]; num_cases.
Qed.

Lemma HasFewWood_antisymmetric : antisymmetric World.HasFewWood.
Proof.
  intros a b. simpl.
  generalize (World.read (agent a) "wood") (World.read (agent b) "wood").
  intros [| |wa|] [| |wb|]; num_cases.
Qed.

Lemma NotStarving_antisymmetric : antisymmetric World.NotStarving.
Proof.
  intros a b. simpl.
  generalize (World.read (agent a) "hunger") (World.read (agent b) "hunger").
  intros [| |wa|] [| |wb|]; num_cases.
Qed.

Lemma surviveGoal_antisymmetric e :
  e ∈ Goal.expectations World.surviveGoal -> antisymmetric e.
Proof.
  intros He. change (Goal.expectations World.surviveGoal)
    with [World.HealthyFire; World.HasFewWood; World.NotStarving] in He.
  repeat (apply elem_of_cons in He as [->|He]).
  - apply HealthyFire_antisymmetric.
  - apply HasFewWood_antisymmetric.
  - apply NotStarving_antisymmetric.
  - by apply elem_of_nil in He.
Qed.

Lemma goalCmp_antisymmetric_witness :
  (forall e, e ∈ Goal.expectations World.surviveGoal -> antisymmetric e) /\
  goalCmp World.surviveGoal World.agent0 World.world0
          World.agent0 Examples.warmer = LT /\
  goalCmp World.surviveGoal World.agent0 Examples.warmer
          World.agent0 World.world0 = GT.
Proof.
  split; [exact surviveGoal_antisymmetric|].
  assert (H : goalCmp World.surviveGoal World.agent0 Examples.warmer
                World.agent0 World.world0 = GT) by (vm_compute; reflexivity).
  split; [|exact H].
  rewrite (proj1 (goalCmp_antisymmetric World.surviveGoal
                    World.agent0 World.world0 World.agent0 Examples.warmer
                    surviveGoal_antisymmetric)).
  rewrite H. reflexivity.
Defined.

(** ** When no action can be performed *)

Lemma collect_nil {A C} (g : A -> Res (list C)) xs :
  (forall x, x ∈ xs -> g x = Ok []) -> collect g xs = Ok [].
Proof.
  induction xs as [|x xs IH]; intros H; [done|]. simpl.
  rewrite H by left. simpl. rewrite IH; [done|]. intros; apply H. by right.
Qed.

Lemma search_stuck this goal c depth :
  1 <= depth ->
  (forall a, a ∈ Planner.actions this -> fst (Action.canPerform a c) = Ok false) ->
  search this goal [] depth c = Ok [].
Proof.
  intros Hd H. destruct depth as [|d]; [lia|]. cbn [search].
  rewrite collect_nil; [done|].
  intros a [_ Ha]%list_elem_of_filter.
  unfold candidate, performable, replay. simpl. by rewrite (H a Ha).
Qed.

Lemma introspect_empty this goal plan depth c :
  1 <= depth ->
  search this goal plan depth c = Ok [] ->
  Planner.introspect this goal plan depth c = (Throw TypeError, c).
Proof.
  intros Hd Hs. unfold Planner.introspect.
  destruct (depth <=? 0) eqn:E; [apply Nat.leb_le in E; lia|].
  unfold bind. by rewrite plan_introspection_eq, Hs.
Qed.

Lemma plan_stuck this goal c :
  Goal.expectations goal <> [] ->
  (forall a, a ∈ Planner.actions this -> fst (Action.canPerform a c) = Ok false) ->
  fst (Planner.plan this goal c) = Throw TypeError.
Proof.
  intros Hg H. unfold Planner.plan.
  destruct (Goal.expectations goal) as [|e es] eqn:He; [done|].
  cbn [length Nat.eqb Planner.plan_loop]. unfold bind at 1.
  rewrite introspect_empty; [done | lia |]. apply search_stuck; [lia | done].
Qed.

Lemma bind_fst_ok {S A B} (m : St S A) (f : A -> St S B) s b :
  fst (bind m f s) = Ok b ->
  exists a s1, m s = (Ok a, s1) /\ fst (f a s1) = Ok b.
Proof.
  unfold bind. destruct (m s) as [[a|e] s1]; intros H; [eauto | done].
Qed.

(** [introspect] at a positive depth never answers [None]: the first leaf
    is longer than the plan. *)
Lemma introspect_not_none this goal plan depth c :
  1 <= depth ->
  fst (Planner.introspect this goal plan depth c) <> Ok None.
Proof.
  intros Hd. unfold Planner.introspect.
  destruct (depth <=? 0) eqn:E; [apply Nat.leb_le in E; lia|].
  unfold bind. rewrite plan_introspection_eq.
  destruct (search this goal plan depth c) as [[|newPlan ?]|e] eqn:Hs;
    try done.
  apply search_leaves in Hs. apply Forall_cons in Hs as [(ext & -> & Hl & _) _].
  destruct (length (plan ++ ext) <=? length plan) eqn:Hlen.
  { apply Nat.leb_le in Hlen. rewrite length_app in Hlen. lia. }
  by destruct ((plan ++ ext) !! length plan).
Qed.

(** For a goal with expectations [plan] never returns [None]: it returns a
    plan or raises. *)
Lemma plan_loop_not_none this goal maxIterations :
  forall actionsPlan planDone c,
    fst (Planner.plan_loop this goal maxIterations actionsPlan planDone c)
    <> Ok None.
Proof.
  induction maxIterations as [|n IH]; intros actionsPlan planDone c;
    simpl; destruct planDone; try done.
  intros (doOpt & c1 & Hi & H)%bind_fst_ok.
  destruct doOpt as [op|]; simpl in H.
  - apply bind_fst_ok in H as (op' & c2 & _ & H).
    apply bind_fst_ok in H as (ok & c3 & _ & H).
    apply bind_fst_ok in H as (done' & c4 & _ & H).
    by apply IH in H.
  - apply (introspect_not_none this goal actionsPlan 5 c); [lia|].
    by rewrite Hi.
Qed.

Lemma plan_not_none this goal c :
  Goal.expectations goal <> [] -> fst (Planner.plan this goal c) <> Ok None.
Proof.
  intros Hg. unfold Planner.plan.
  destruct (Goal.expectations goal); [done|]. apply plan_loop_not_none.
Qed.

(** C3, amended (infeasibility). For a goal with at least one expectation:
    if no registered action can be performed on the initial agent and world
    (every [canPerform] answers [false]), [Planner.plan] returns no plan:
    its result is never [Some]. *)
Theorem no_performable_action_no_plan (this : Planner.t) (goal : Goal)
    (c : Concept) :
  Goal.expectations goal <> [] ->
  (forall a, a ∈ Planner.actions this ->
             fst (Action.canPerform a c) = Ok false) ->
  forall p, fst (Planner.plan this goal c) <> Ok (Some p).
Proof. intros Hg H p. by rewrite plan_stuck. Qed.

Lemma strict_actions :
  Planner.actions Examples.strictPlanner
  = [World.eatFood; World.addWoodToFire; World.getWood].
Proof. reflexivity. Qed.

Lemma barren_stuck a :
  a ∈ Planner.actions Examples.strictPlanner ->
  fst (Action.canPerform a Examples.barren) = Ok false.
Proof.
  rewrite strict_actions. intros Ha.
  repeat (apply elem_of_cons in Ha as [->|Ha]);
    [| | |by apply elem_of_nil in Ha]; vm_compute; reflexivity.
Qed.

Lemma no_performable_action_no_plan_witness :
  Goal.expectations World.surviveGoal <> [] /\
  (forall a, a ∈ Planner.actions Examples.strictPlanner ->
             fst (Action.canPerform a Examples.barren) = Ok false) /\
  forall p, fst (Planner.plan Examples.strictPlanner World.surviveGoal
                   Examples.barren) <> Ok (Some p).
Proof.
  assert (Hg : Goal.expectations World.surviveGoal <> []) by discriminate.
  split; [exact Hg|]. split; [exact barren_stuck|].
  exact (no_performable_action_no_plan Examples.strictPlanner
           World.surviveGoal Examples.barren Hg barren_stuck).
Defined.

(** C2 (the defect). On the demo planner without the no-op action and a
    world where nothing can be done, the search returns no leaf plan and
    [introspect] reads [newPlans[0].length] of an empty array: [Planner.plan]
    raises a [TypeError] and returns neither [Some] nor [None]. *)
Theorem plan_raises_when_stuck :
  fst (Planner.plan Examples.strictPlanner World.surviveGoal Examples.barren)
  = Throw TypeError.
Proof. vm_compute. reflexivity. Qed.

Lemma idle_actions :
  Planner.actions Examples.idlePlanner = [NOOP; Examples.rest].
Proof. reflexivity. Qed.

(** C3 as stated fails: the only effect of the registered actions makes the
    agent hungrier, which the one unmet expectation ranks [LT], never [GT];
    still [Planner.plan] does not return [None] but a plan of fifty
    actions. *)
Lemma infeasibility_fails :
  no_effect_ranks_GT Examples.idlePlanner Examples.starvingGoal Examples.hungry /\
  fst (Planner.plan Examples.idlePlanner Examples.starvingGoal Examples.hungry)
    <> Ok None /\
  match fst (Planner.plan Examples.idlePlanner Examples.starvingGoal
               Examples.hungry) with
  | Ok (Some p) => length p = 50
  | _ => False
  end.
Proof.
  split; [|split].
  - intros a fx hyp e Ha Hfx Hcheck He Hunmet.
    rewrite idle_actions in Ha.
    change (Goal.expectations Examples.starvingGoal)
      with [World.NotStarving] in He.
    apply list_elem_of_singleton in He as ->.
    repeat (apply elem_of_cons in Ha as [->|Ha]);
      [by apply elem_of_nil in Hfx | | by apply elem_of_nil in Ha].
    apply list_elem_of_singleton in Hfx as ->.
    vm_compute in Hcheck. injection Hcheck as <-.
    vm_compute. discriminate.
  - assert (H : is_ok (fst (Planner.plan Examples.idlePlanner
                 Examples.starvingGoal Examples.hungry)) = true
                /\ is_some (from_ok None (fst (Planner.plan Examples.idlePlanner
                 Examples.starvingGoal Examples.hungry))) = true)
      by (vm_compute; split; reflexivity).
    intros E. rewrite E in H. destruct H as [_ H]. discriminate H.
  - vm_compute. reflexivity.
Qed.
(** ** Ranking *)

Section SortOrder.
Context {A : Type} (c : A -> A -> Z).

Lemma js_insert_sorted (u : list A) x l :
  consistent c u -> x ∈ u -> Forall (fun y => y ∈ u) l ->
  StronglySorted (fun a b => (c a b <= 0)%Z) l ->
  StronglySorted (fun a b => (c a b <= 0)%Z) (js_insert c x l).
Proof.
  intros [Hanti Htrans] Hx. induction l as [|y l IH]; intros Hu Hs; simpl.
  - by repeat constructor.
  - apply Forall_cons in Hu as [Hy Hu].
    apply StronglySorted_cons in Hs as [Hyl Hs].
    destruct (Z.ltb_spec 0 (c x y)) as [Hlt|Hle].
    + apply StronglySorted_cons. split; [|by apply IH].
      rewrite js_insert_perm. constructor; [by apply Hanti | done].
    + apply StronglySorted_cons. split; [|by apply StronglySorted_cons].
      constructor; [done|]. rewrite Forall_forall in Hyl, Hu |- *.
      intros z Hz. apply (Htrans x y z); auto.
Qed.

Lemma js_sort_sorted l :
  consistent c l ->
  StronglySorted (fun a b => (c a b <= 0)%Z) (js_sort c l).
Proof.
  intros Hc. cut (forall k, k ⊆ l ->
    StronglySorted (fun a b => (c a b <= 0)%Z) (js_sort c k)).
  { intros H. by apply H. }
  induction k as [|x k IH]; intros Hk; simpl; [constructor|].
  apply (js_insert_sorted l); [done | | |].
  - apply Hk. left.
  - apply Forall_forall. intros y Hy%js_sort_elem. apply Hk. by right.
  - apply IH. intros y Hy. apply Hk. by right.
Qed.
End SortOrder.

Section Beam.
Variable this : Planner.t.

Lemma collect_candidates plan c xs : forall plans,
  collect (candidate this plan c) xs = Ok plans ->
  plans = map (fun a => plan ++ [a])
            (filter (fun a => holds (performable this plan c a)) xs).
Proof.
  induction xs as [|a xs IH]; intros plans; simpl.
  - by intros [= <-].
  - rewrite filter_cons.
    destruct (decide (holds (performable this plan c a))) as [H|H];
      unfold candidate at 1;
      destruct (performable this plan c a) as [[]|e]; simpl in *;
      try done;
      (destruct (collect (candidate this plan c) xs) as [zs|e']; simpl;
         [|done]); intros [= <-]; by rewrite (IH zs eq_refl).
Qed.

Lemma collect_scored_entries c leaves : forall es,
  collect (scored this c) leaves = Ok es ->
  Forall2 (entry_of this c) leaves es.
Proof.
  induction leaves as [|l ls IH]; intros es; simpl.
  - intros [= <-]. constructor.
  - unfold scored at 1.
    destruct (replay this l c) as [sim|e] eqn:Hr; simpl; [|done].
    destruct (collect (scored this c) ls) as [zs|e]; simpl; [|done].
    intros [= <-]. constructor; [|by apply IH].
    split; [done|]. simpl. by rewrite concept_eta.
Qed.

Lemma collect_leaves goal d c ps : forall entries,
  collect (fun p => res_bind (search this goal p d c)
                      (collect (scored this c))) ps = Ok entries ->
  exists leafss,
    Forall2 (fun p leaves => search this goal p d c = Ok leaves) ps leafss /\
    Forall2 (entry_of this c) (concat leafss) entries.
Proof.
  induction ps as [|p ps IH]; intros entries; simpl.
  - intros [= <-]. exists []. split; constructor.
  - destruct (search this goal p d c) as [leaves|e] eqn:Hs; simpl; [|done].
    destruct (collect (scored this c) leaves) as [es|e] eqn:He; simpl;
      [|done].
    destruct (collect _ ps) as [zs|e]; simpl; [|done].
    intros [= <-]. destruct (IH zs eq_refl) as (leafss & H1 & H2).
    exists (leaves :: leafss). split; [by constructor|]. simpl.
    apply Forall2_app; [by apply collect_scored_entries | done].
Qed.
End Beam.

(** What the statements on the ranking use of the sort holds of every sort
    that permutes its input and, for a consistent comparator, sorts it. *)
Section AnySort.
Context {A : Type} (c : A -> A -> Z) (srt : list A -> list A).
Hypothesis srt_perm : forall l, srt l ≡ₚ l.
Hypothesis srt_sorted : forall l,
  consistent c l -> StronglySorted (fun a b => (c a b <= 0)%Z) (srt l).

Lemma sorted_cut n l :
  take n (srt l) ++ drop n (srt l) ≡ₚ l /\
  length (take n (srt l)) = n `min` length l /\
  (consistent c l ->
   StronglySorted (fun a b => (c a b <= 0)%Z) (take n (srt l)) /\
   forall x y, x ∈ take n (srt l) -> y ∈ drop n (srt l) -> (c x y <= 0)%Z).
Proof.
  split; [by rewrite take_drop|]. split; [by rewrite length_take, srt_perm|].
  intros Hs%srt_sorted. rewrite <- (take_drop n (srt l)) in Hs.
  apply StronglySorted_app in Hs as (Hcut & Hk & _). by split.
Qed.
End AnySort.

Lemma rank_no_later goal x y :
  (Planner.rank goal x y <= 0)%Z <-> ranks_no_later goal x y.
Proof.
  unfold Planner.rank, ranks_no_later.
  destruct (goalCmp goal _ _ _ _); split; intros; try done; lia.
Qed.

Lemma sorted_no_later goal l :
  StronglySorted (fun a b => (Planner.rank goal a b <= 0)%Z) l ->
  StronglySorted (ranks_no_later goal) l.
Proof.
  induction 1 as [|x l Hl IH Hx]; constructor; [done|].
  eapply Forall_impl; [exact Hx|]. intros y. apply rank_no_later.
Qed.

Lemma orders_consistent goal l :
  orders goal l -> consistent (Planner.rank goal) l.
Proof.
  intros [Hswap Htrans]. split.
  - intros x y Hx Hy. unfold Planner.rank. rewrite (Hswap x y Hx Hy).
    destruct (goalCmp goal (Introspected.agent y) _ _ _); simpl; lia.
  - intros x y z Hx Hy Hz. rewrite !rank_no_later. by apply Htrans.
Qed.

Lemma entry_of_unique this c leaf e1 e2 :
  entry_of this c leaf e1 -> entry_of this c leaf e2 -> e1 = e2.
Proof.
  intros [H1 R1] [H2 R2]. rewrite R1 in R2. injection R2 as Ha Hw.
  destruct e1, e2; simpl in *. congruence.
Qed.

(** What a call at depth [S d] returns, from the leaves gathered one level
    deeper and their entries. *)
Lemma beam_cut (this : Planner.t) (goal : Goal) (plan : list Action)
    (d : nat) (c : Concept) (res : list (list Action))
    (leafss : list (list (list Action))) (entries : list Introspected) :
  fst (Planner.plan_introspection this goal plan (S d) c) = Ok res ->
  Forall2 (fun p leaves =>
             fst (Planner.plan_introspection this goal p d c) = Ok leaves)
          (rev (candidates this plan c)) leafss ->
  Forall2 (entry_of this c) (concat leafss) entries ->
  res = map Introspected.plan (take 3 (js_sort (Planner.rank goal) entries)).
Proof.
  intros Hres Hleaves Hentries.
  rewrite plan_introspection_eq in Hres. simpl in Hres.
  destruct (collect (candidate this plan c) _) as [plans|e] eqn:Hc;
    simpl in Hres; [|done].
  destruct (collect _ (rev plans)) as [entries'|e] eqn:He; simpl in Hres;
    [|done].
  injection Hres as <-.
  apply collect_candidates in Hc. subst plans.
  apply collect_leaves in He as (leafss' & H1 & H2).
  assert (leafss' = leafss) as ->.
  { eapply Forall2_unique; [exact H1| |].
    - eapply Forall2_impl; [exact Hleaves|]. intros p leaves Hp. simpl in Hp.
      rewrite plan_introspection_eq in Hp. exact Hp.
    - intros p l1 l2 E1 E2. simpl in *. congruence. }
  assert (entries' = entries) as ->; [|done].
  eapply Forall2_unique; [exact H2 | exact Hentries |].
  intros leaf e1 e2. apply entry_of_unique.
Qed.

Lemma beam_gathers (this : Planner.t) (goal : Goal) (plan : list Action)
    (d : nat) (c : Concept) (res : list (list Action)) :
  fst (Planner.plan_introspection this goal plan (S d) c) = Ok res ->
  exists (leafss : list (list (list Action))) (entries : list Introspected),
    Forall2 (fun p leaves =>
               fst (Planner.plan_introspection this goal p d c) = Ok leaves)
            (rev (candidates this plan c)) leafss /\
    Forall2 (entry_of this c) (concat leafss) entries.
Proof.
  rewrite plan_introspection_eq. simpl.
  destruct (collect (candidate this plan c) _) as [plans|e] eqn:Hc;
    simpl; [|done].
  destruct (collect _ (rev plans)) as [entries|e] eqn:He; simpl; [|done].
  intros _. apply collect_candidates in Hc. subst plans.
  apply collect_leaves in He as (leafss & H1 & H2).
  exists leafss, entries. split; [|done].
  eapply Forall2_impl; [exact H1|]. intros p leaves Hp. simpl in Hp.
  by rewrite plan_introspection_eq.
Qed.

(** C6 (beam of three). A call of [plan_introspection] with [depth >= 1]
    gathers, for each candidate, last first, the plans returned one level
    deeper (at depth 1 the candidates themselves), and replays each by
    [simulate_in_place] (ambient actions before each action) on fresh clones
    of [agent] and [world]. It returns [min 3 n] of these [n] leaf plans,
    so at most three. Where the ranking (descending by [goalCmp] on the
    stores the replays end in, ties broken by ascending [planCost]) orders
    the entries, the plans returned are in rank order and each ranks no
    later than every leaf left out: they are the top-ranked leaf plans. *)
Theorem beam_keeps_top3 (this : Planner.t) (goal : Goal) (plan : list Action)
    (depth : nat) (c : Concept) (res : list (list Action)) :
  1 <= depth ->
  fst (Planner.plan_introspection this goal plan depth c) = Ok res ->
  length res <= 3 /\
  exists (leafss : list (list (list Action))) (entries : list Introspected),
    Forall2 (fun p leaves =>
               fst (Planner.plan_introspection this goal p (depth - 1) c)
               = Ok leaves)
            (rev (candidates this plan c)) leafss /\
    Forall2 (entry_of this c) (concat leafss) entries /\
    (depth = 1 -> concat leafss = rev (candidates this plan c)) /\
    exists kept dropped : list Introspected,
      res = map Introspected.plan kept /\
      kept ++ dropped ≡ₚ entries /\
      length kept = 3 `min` length entries /\
      (orders goal entries ->
       StronglySorted (ranks_no_later goal) kept /\
       forall x y, x ∈ kept -> y ∈ dropped -> ranks_no_later goal x y).
Proof.
  intros Hd Hres. destruct depth as [|d]; [lia|]. clear Hd.
  replace (S d - 1) with d by lia.
  destruct (beam_gathers this goal plan d c res Hres)
    as (leafss & entries & Hleaves & Hentries).
  rewrite (beam_cut this goal plan d c res leafss entries Hres Hleaves
             Hentries).
  destruct (sorted_cut (Planner.rank goal) (js_sort (Planner.rank goal))
              (js_sort_perm _) (js_sort_sorted _) 3 entries)
    as (Hperm & Hlen & Hsorted).
  split; [rewrite length_map, Hlen; lia|].
  exists leafss, entries. split; [done|]. split; [done|]. split.
  { intros [= ->]. clear Hres Hentries Hperm Hlen Hsorted.
    induction Hleaves as [|p leaves ps lss Hp _ IH]; [done|].
    simpl in Hp. injection Hp as <-. simpl. by rewrite IH. }
  exists (take 3 (js_sort (Planner.rank goal) entries)),
         (drop 3 (js_sort (Planner.rank goal) entries)).
  split; [done|]. split; [done|]. split; [done|].
  intros Hord%orders_consistent. destruct (Hsorted Hord) as [Hk Hcut]. split.
  - by apply sorted_no_later.
  - intros x y Hx Hy. apply rank_no_later. by apply Hcut.
Qed.

Lemma crossroads_entries :
  Forall2 (entry_of Crossroads.planner Crossroads.start)
    (rev (candidates Crossroads.planner [] Crossroads.start))
    Crossroads.entries.
Proof. repeat constructor. Qed.

Lemma crossroads_top_ok :
  fst (Planner.plan_introspection Crossroads.planner Crossroads.oneJudge [] 1
         Crossroads.start) = Ok Crossroads.top.
Proof. apply ok_from_ok. vm_compute. reflexivity. Qed.

Lemma crossroads_elem x :
  x ∈ Crossroads.entries ->
  x = Crossroads.atWest \/ x = Crossroads.atSouth \/
  x = Crossroads.atEast \/ x = Crossroads.atNorth.
Proof.
  intros H. repeat (apply elem_of_cons in H as [->|H]); auto.
  by apply elem_of_nil in H.
Qed.

Lemma oneJudge_orders : orders Crossroads.oneJudge Crossroads.entries.
Proof.
  split.
  - intros x y Hx%crossroads_elem Hy%crossroads_elem.
    destruct Hx as [->|[->|[->| ->]]], Hy as [->|[->|[->| ->]]];
      vm_compute; reflexivity.
  - intros x y z Hx%crossroads_elem Hy%crossroads_elem Hz%crossroads_elem.
    destruct Hx as [->|[->|[->| ->]]], Hy as [->|[->|[->| ->]]],
             Hz as [->|[->|[->| ->]]];
      vm_compute; try done; intros; exfalso; auto.
Qed.

Lemma beam_keeps_top3_witness :
  1 <= 1 /\
  fst (Planner.plan_introspection Crossroads.planner Crossroads.oneJudge [] 1
         Crossroads.start) = Ok Crossroads.top /\
  orders Crossroads.oneJudge Crossroads.entries /\
  length Crossroads.entries = 4 /\
  map (map Action.name) Crossroads.top = [["north"]; ["east"]; ["south"]] /\
  exists kept dropped : list Introspected,
    Crossroads.top = map Introspected.plan kept /\
    kept ++ dropped ≡ₚ Crossroads.entries /\
    length kept = 3 /\
    StronglySorted (ranks_no_later Crossroads.oneJudge) kept /\
    forall x y, x ∈ kept -> y ∈ dropped ->
      ranks_no_later Crossroads.oneJudge x y.
Proof.
  split; [exact (le_n 1)|]. split; [exact crossroads_top_ok|].
  split; [exact oneJudge_orders|]. split; [reflexivity|].
  split; [vm_compute; reflexivity|].
  destruct (beam_keeps_top3 Crossroads.planner Crossroads.oneJudge [] 1
              Crossroads.start Crossroads.top (le_n 1) crossroads_top_ok)
    as (_ & leafss & entries & _ & Hentries & Hone & kept & dropped
        & Hres & Hperm & Hlen & Hord).
  rewrite (Hone eq_refl) in Hentries.
  assert (entries = Crossroads.entries) as ->.
  { eapply Forall2_unique; [exact Hentries | exact crossroads_entries |].
    intros leaf e1 e2. apply entry_of_unique. }
  exists kept, dropped. destruct (Hord oneJudge_orders) as [Hs Hcut].
  split; [exact Hres|]. split; [exact Hperm|]. split; [exact Hlen|].
  split; [exact Hs | exact Hcut].
Defined.

Lemma crossroads_distinct x y :
  map Action.ref (Introspected.plan x) <> map Action.ref (Introspected.plan y) ->
  x <> y.
Proof. by intros H ->. Qed.

Lemma crossroads_cycle (s : list Introspected) :
  s ≡ₚ Crossroads.entries ->
  exists kept dropped,
    kept ∈ take 3 s /\ dropped ∈ drop 3 s /\
    goalCmp Crossroads.threeJudges
      (Introspected.agent dropped) (Introspected.world dropped)
      (Introspected.agent kept) (Introspected.world kept) = GT.
Proof.
  intros Hs. pose proof (Permutation_length Hs) as Hlen.
  destruct s as [|w [|x [|y [|z [|]]]]]; try discriminate Hlen. clear Hlen.
  assert (Hz : z ∈ Crossroads.entries) by (rewrite <- Hs; set_solver).
  assert (Hin : forall v, v ∈ Crossroads.entries -> v <> z ->
                          v ∈ take 3 [w; x; y; z]).
  { intros v Hv Hne. rewrite <- Hs in Hv. simpl.
    repeat (apply elem_of_cons in Hv as [->|Hv]); [set_solver.. | |];
      [done | by apply elem_of_nil in Hv]. }
  apply crossroads_elem in Hz as [->|[->|[->| ->]]].
  - exists Crossroads.atNorth, Crossroads.atWest.
    split; [|split; [set_solver | vm_compute; reflexivity]].
    apply Hin; [set_solver | by apply crossroads_distinct].
  - exists Crossroads.atWest, Crossroads.atSouth.
    split; [|split; [set_solver | vm_compute; reflexivity]].
    apply Hin; [set_solver | by apply crossroads_distinct].
  - exists Crossroads.atSouth, Crossroads.atEast.
    split; [|split; [set_solver | vm_compute; reflexivity]].
    apply Hin; [set_solver | by apply crossroads_distinct].
  - exists Crossroads.atEast, Crossroads.atNorth.
    split; [|split; [set_solver | vm_compute; reflexivity]].
    apply Hin; [set_solver | by apply crossroads_distinct].
Qed.

Lemma crossroads_vote_ok :
  fst (Planner.plan_introspection Crossroads.planner Crossroads.threeJudges []
         1 Crossroads.start) = Ok Crossroads.voted.
Proof. apply ok_from_ok. vm_compute. reflexivity. Qed.

(** The ranking need not be an order. With three judges the vote is
    cyclic on the four leaves of the crossroads: whichever three the sort
    puts first, the leaf left out beats one of them. So it is for the plans
    the call returns. *)
Lemma cyclic_vote_drops_a_winner :
  Forall2 (entry_of Crossroads.planner Crossroads.start)
    (rev (candidates Crossroads.planner [] Crossroads.start))
    Crossroads.entries /\
  (forall s, s ≡ₚ Crossroads.entries ->
     exists kept dropped,
       kept ∈ take 3 s /\ dropped ∈ drop 3 s /\
       goalCmp Crossroads.threeJudges
         (Introspected.agent dropped) (Introspected.world dropped)
         (Introspected.agent kept) (Introspected.world kept) = GT) /\
  exists (res : list (list Action)) (kept dropped : list Introspected),
    fst (Planner.plan_introspection Crossroads.planner Crossroads.threeJudges
           [] 1 Crossroads.start) = Ok res /\
    res = map Introspected.plan kept /\
    kept ++ dropped ≡ₚ Crossroads.entries /\
    length kept = 3 /\
    exists x y, x ∈ kept /\ y ∈ dropped /\
      goalCmp Crossroads.threeJudges
        (Introspected.agent y) (Introspected.world y)
        (Introspected.agent x) (Introspected.world x) = GT.
Proof.
  split; [exact crossroads_entries|]. split; [exact crossroads_cycle|].
  set (s := js_sort (Planner.rank Crossroads.threeJudges) Crossroads.entries).
  exists Crossroads.voted, (take 3 s), (drop 3 s).
  split; [exact crossroads_vote_ok|]. split.
  { apply (beam_cut Crossroads.planner Crossroads.threeJudges [] 0
             Crossroads.start Crossroads.voted
             [[[Crossroads.west]]; [[Crossroads.south]];
              [[Crossroads.east]]; [[Crossroads.north]]]
             Crossroads.entries crossroads_vote_ok);
      [repeat constructor | exact crossroads_entries]. }
  split; [by rewrite take_drop; apply js_sort_perm|].
  split; [by rewrite length_take; unfold s; rewrite js_sort_perm|].
  destruct (crossroads_cycle s (js_sort_perm _ _)) as (x & y & Hx & Hy & H).
  by exists x, y.
Qed.

(** * Further properties *)

(** X1 ([pseudoAgentFrom]). Cloning never raises and never writes the
    source; the clone holds, under every key, what the source holds. *)
Theorem clone_copies_store (name : string) (s : Store) :
  exists clone : Store,
    pseudoAgentFrom name s = (Ok clone, s) /\
    forall key, clone !! key = s !! key.
Proof. exists s. by rewrite pseudoAgentFrom_eq. Qed.

Lemma setup_step_lookup (agent : Store) key val :
  (match PseudoAgent.has key agent with
   | (Ok true, _) => snd (PseudoAgent.set key val agent)
   | _ => snd (PseudoAgent.put key val agent)
   end) = <[key := val]> agent.
Proof.
  unfold PseudoAgent.has, PseudoAgent.set, PseudoAgent.put, bind, getS, ret.
  by destruct (agent !! key).
Qed.

Lemma setup_fold origin : forall (agent : Store),
  fold_left (fun agent '(key, val) =>
               match PseudoAgent.has key agent with
               | (Ok true, _) => snd (PseudoAgent.set key val agent)
               | _ => snd (PseudoAgent.put key val agent)
               end) origin agent
  = fold_left (fun agent '(key, val) => <[key := val]> agent) origin agent.
Proof.
  induction origin as [|[k v] origin IH]; intros agent; [done|].
  cbn [fold_left]. by rewrite setup_step_lookup, IH.
Qed.

Lemma fold_insert_lookup origin : forall (agent : Store) k,
  fold_left (fun agent '(key, val) => <[key := val]> agent) origin agent !! k
  = match last (filter (fun p => p.1 = k) origin) with
    | Some p => Some p.2
    | None => agent !! k
    end.
Proof.
  induction origin as [|[k' v] origin IH]; intros agent k; [done|].
  cbn [fold_left]. rewrite IH, filter_cons. simpl.
  destruct (decide (k' = k)) as [->|Hne].
  - destruct (filter _ origin) as [|p l] eqn:E.
    + simpl. by rewrite lookup_insert_eq.
    + rewrite last_cons_cons. destruct (last (p :: l)) eqn:EL; [done|].
      by apply last_None in EL.
  - rewrite lookup_insert_ne by done. done.
Qed.

(** X2 ([pseudoAgentSetup]). In the store built from a list of entries,
    [get key] returns the value of the last entry with that key, and [None]
    when no entry has it: a later entry overwrites an earlier one. *)
Theorem setup_holds_entries (name : string) (origin : list (string * value))
    (key : string) :
  PseudoAgent.get key (pseudoAgentSetup name origin)
  = (Ok (snd <$> last (filter (fun p => p.1 = key) origin)),
     pseudoAgentSetup name origin).
Proof.
  rewrite get_eq. f_equal. f_equal. unfold pseudoAgentSetup.
  rewrite setup_fold, fold_insert_lookup.
  destruct (last _); [done|]. apply lookup_empty.
Qed.

(** X3 ([has], [keys], [get]). The three readers agree and write nothing:
    [keys] lists each key once, a key is listed iff [has] answers [true] iff
    [get] returns a value, and [has] answers [false] iff [get] returns
    [None]. *)
Theorem keys_has_get_agree (s : Store) (key : string) :
  exists ks,
    PseudoAgent.keys s = (Ok ks, s) /\
    NoDup ks /\
    (key ∈ ks <-> PseudoAgent.has key s = (Ok true, s)) /\
    (PseudoAgent.has key s = (Ok true, s) <->
     exists v, PseudoAgent.get key s = (Ok (Some v), s)) /\
    (PseudoAgent.has key s = (Ok false, s) <->
     PseudoAgent.get key s = (Ok None, s)).
Proof.
  exists (map fst (map_to_list s)). split; [done|].
  split; [apply NoDup_fst_map_to_list|].
  rewrite elem_of_keys, get_eq.
  unfold PseudoAgent.has, bind, getS, ret.
  destruct (s !! key) as [v|]; simpl; repeat split;
    try (intros [? ?]); try done; eauto; intros; congruence.
Qed.

(** X4 ([set], [put]). A write concerns one key: [set] never creates or
    removes a key ([has] answers the same for every key afterwards), and
    neither [set] nor [put] changes what [get] returns for another key,
    whether the write succeeds or not. *)
Theorem writes_touch_one_key (s : Store) (key other : string) (v : value) :
  fst (PseudoAgent.has other (snd (PseudoAgent.set key v s)))
    = fst (PseudoAgent.has other s) /\
  (other <> key ->
   fst (PseudoAgent.get other (snd (PseudoAgent.set key v s)))
     = fst (PseudoAgent.get other s) /\
   fst (PseudoAgent.get other (snd (PseudoAgent.put key v s)))
     = fst (PseudoAgent.get other s)).
Proof.
  split.
  - destruct (s !! key) as [w|] eqn:Hk.
    + rewrite set_present by eauto. simpl.
      unfold PseudoAgent.has, bind, getS, ret. simpl.
      destruct (decide (other = key)) as [->|Hne].
      * by rewrite lookup_insert_eq, Hk.
      * by rewrite lookup_insert_ne.
    + by rewrite set_absent.
  - intros Hne. rewrite !get_eq. simpl.
    destruct (s !! key) as [w|] eqn:Hk.
    + rewrite set_present, put_present by eauto. simpl.
      by rewrite lookup_insert_ne.
    + rewrite set_absent, put_fresh by done. simpl.
      by rewrite lookup_insert_ne.
Qed.

Lemma changeAmt_flat_triple n on propName :
  ActionEffect.apply (changeAmtEffect (inl n) on propName)
  = ActionEffect.apply (changeAmtEffect (inr (n, NegInf, PosInf)) on propName) /\
  ActionEffect.check (changeAmtEffect (inl n) on propName)
  = ActionEffect.check (changeAmtEffect (inr (n, NegInf, PosInf)) on propName).
Proof. done. Qed.

Lemma changeAmt_apply a on propName c v :
  target_store on c !! propName = Some v ->
  ActionEffect.apply (changeAmtEffect a on propName) c
  = (Ok tt, with_target on (<[propName := VNum (clamped a v)]>
                              (target_store on c)) c).
Proof.
  intros Hv.
  assert (forall amount lo hi,
    ActionEffect.apply (changeAmtEffect (inr (amount, lo, hi)) on propName) c
    = (Ok tt, with_target on
         (<[propName := VNum (clamped (inr (amount, lo, hi)) v)]>
            (target_store on c)) c)) as H.
  { intros amount lo hi. cbn [changeAmtEffect ActionEffect.apply].
    set (m := bind (PseudoAgent.get propName) _).
    assert (Hm : m (target_store on c) =
      (Ok true, <[propName := VNum (clamped (inr (amount, lo, hi)) v)]>
                  (target_store on c))).
    { subst m. erewrite bind_ok by (by rewrite get_eq, Hv).
      erewrite bind_ok by done. by rewrite set_present by eauto. }
    unfold bind. by rewrite on_target_eq, Hm. }
  destruct a as [n|[[amount lo] hi]]; [|apply H].
  rewrite (proj1 (changeAmt_flat_triple n on propName)). apply H.
Qed.



Lemma on_agent_get key c :
  on_agent (PseudoAgent.get key) c = (Ok (agent c !! key), c).
Proof. unfold on_agent. by rewrite get_eq, concept_eta. Qed.

Lemma on_world_get key c :
  on_world (PseudoAgent.get key) c = (Ok (world c !! key), c).
Proof. unfold on_world. by rewrite get_eq, concept_eta. Qed.




(** X7 ([ExpectBuilder.build]). The built [check] first looks the property
    up on the target store: when it is missing the answer is [false] and the
    checker is not run; when it is present the answer is the checker's. *)
Theorem built_check_guards_property (b : ExpectBuilder.t) (c : Concept) :
  (target_store (ExpectBuilder.target_ b) c !! ExpectBuilder.prop_ b = None ->
   Expects.check (ExpectBuilder.build b) c = (Ok false, c)) /\
  (is_Some (target_store (ExpectBuilder.target_ b) c !! ExpectBuilder.prop_ b) ->
   Expects.check (ExpectBuilder.build b) c = ExpectBuilder.checker_ b c).
Proof.
  cbn [ExpectBuilder.build Expects.check]. unfold bind.
  rewrite on_target_eq, get_eq. cbn [fst snd].
  assert (with_target (ExpectBuilder.target_ b)
            (target_store (ExpectBuilder.target_ b) c) c = c) as ->
    by (by destruct (ExpectBuilder.target_ b), c).
  split.
  - by intros ->.
  - by intros [v ->].
Qed.

(** X8 ([goalReached]). When every expectation's [check] answers a boolean
    and leaves the stores as they are, [goalReached] does too, and it
    answers [true] iff every [check] answers [true]. *)
Theorem goalReached_iff_all_checks (goal : Goal) (c : Concept) :
  Forall (fun e => exists b, Expects.check e c = (Ok b, c))
         (Goal.expectations goal) ->
  exists b,
    goalReached goal c = (Ok b, c) /\
    (b = true <->
     Forall (fun e => Expects.check e c = (Ok true, c)) (Goal.expectations goal)).
Proof.
  unfold goalReached. induction (Goal.expectations goal) as [|e es IH];
    intros H.
  - exists true. by split.
  - apply Forall_cons in H as [[b Hb] H]. destruct (IH H) as (b' & Hrun & Hiff).
    cbn [goalReached_loop]. rewrite (bind_ok _ _ _ _ _ Hb).
    destruct b; simpl.
    + exists b'. split; [done|]. rewrite Hiff. split.
      * intros ?. by constructor.
      * by intros [_ ?]%Forall_cons.
    + exists false. split; [done|]. split; [done|].
      intros [He _]%Forall_cons. congruence.
Qed.

Lemma demo_checks_answer :
  Forall (fun e => exists b, Expects.check e World.start = (Ok b, World.start))
         (Goal.expectations World.surviveGoal).
Proof.
  repeat constructor; eexists; vm_compute; reflexivity.
Qed.

Lemma goalReached_iff_all_checks_witness :
  Forall (fun e => exists b, Expects.check e World.start = (Ok b, World.start))
         (Goal.expectations World.surviveGoal) /\
  exists b, goalReached World.surviveGoal World.start = (Ok b, World.start).
Proof.
  split; [exact demo_checks_answer|].
  destruct (goalReached_iff_all_checks World.surviveGoal World.start
              demo_checks_answer) as (b & H & _).
  exists b. exact H.
Defined.

(** X9 ([goalReached] stops early). At the first expectation whose [check]
    answers [false], [goalReached] answers [false] with the stores as that
    check left them; the expectations after it are not evaluated, whatever
    they would do. *)
Theorem goalReached_stops_at_first_failure (goal : Goal) (c c' : Concept)
    (pre post : list Expects) (e : Expects) :
  Goal.expectations goal = pre ++ e :: post ->
  Forall (fun e' => Expects.check e' c = (Ok true, c)) pre ->
  Expects.check e c = (Ok false, c') ->
  goalReached goal c = (Ok false, c').
Proof.
  unfold goalReached. intros -> Hpre He.
  induction pre as [|p pre IH]; cbn [app goalReached_loop].
  - by rewrite (bind_ok _ _ _ _ _ He).
  - apply Forall_cons in Hpre as [Hp Hpre].
    rewrite (bind_ok _ _ _ _ _ Hp). simpl. by apply IH.
Qed.

Lemma goalReached_stops_at_first_failure_witness :
  Goal.expectations World.surviveGoal
    = [] ++ World.HealthyFire :: [World.HasFewWood; World.NotStarving] /\
  Expects.check World.HealthyFire World.start = (Ok false, World.start) /\
  goalReached World.surviveGoal World.start = (Ok false, World.start).
Proof.
  assert (H1 : Goal.expectations World.surviveGoal
    = [] ++ World.HealthyFire :: [World.HasFewWood; World.NotStarving])
    by reflexivity.
  assert (H2 : Expects.check World.HealthyFire World.start
               = (Ok false, World.start)) by (vm_compute; reflexivity).
  split; [exact H1|]. split; [exact H2|].
  exact (goalReached_stops_at_first_failure World.surviveGoal World.start
           World.start [] _ World.HealthyFire H1 (List.Forall_nil _) H2).
Defined.




Lemma cost_order_consistent (l : list Action) :
  consistent (fun a b => (Action.cost a - Action.cost b)%Z) l.
Proof. split; intros; lia. Qed.

Lemma filter_js_insert_cost k x (l : list Action) :
  filter (fun a => Action.cost a = k)
    (js_insert (fun a b => (Action.cost a - Action.cost b)%Z) x l)
  = filter (fun a => Action.cost a = k) (x :: l).
Proof.
  induction l as [|y l IH]; [done|]. simpl.
  destruct (Z.ltb_spec 0 (Action.cost x - Action.cost y)) as [Hlt|Hle];
    [|done].
  rewrite (filter_cons _ y (js_insert _ x l)), IH.
  rewrite !filter_cons. repeat case_decide; try done; lia.
Qed.

(** X11 ([setActions]). The registry is a permutation of the actions given,
    in ascending order of cost, and actions of equal cost keep the order
    they were given in; the ambient actions are untouched. *)
Theorem setActions_sorts_stably (actions : list Action) (this : Planner.t) :
  Planner.actions (Planner.setActions actions this) ≡ₚ actions /\
  StronglySorted (fun a b => (Action.cost a <= Action.cost b)%Z)
    (Planner.actions (Planner.setActions actions this)) /\
  (forall k, filter (fun a => Action.cost a = k)
               (Planner.actions (Planner.setActions actions this))
             = filter (fun a => Action.cost a = k) actions) /\
  Planner.ambientActions (Planner.setActions actions this)
    = Planner.ambientActions this.
Proof.
  cbn [Planner.setActions Planner.actions Planner.ambientActions].
  split; [apply js_sort_perm|]. split; [|split; [|done]].
  - pose proof (js_sort_sorted _ actions (cost_order_consistent actions)) as H.
    induction H as [|a l Hs IH Hall]; constructor; [done|].
    eapply Forall_impl; [exact Hall|]. simpl. intros; lia.
  - intros k. induction actions as [|a l IH]; [done|].
    cbn [js_sort foldr]. fold (js_sort (fun a b => (Action.cost a - Action.cost b)%Z) l).
    rewrite filter_js_insert_cost, !filter_cons, IH. done.
Qed.

(** X12 ([numCmp]). Swapping the arguments inverts the answer, a number
    compares [EQ] with itself, and on finite numbers the answer is the order
    of the integers. *)
Theorem numCmp_orders (a b : num) :
  numCmp a b = invert (numCmp b a) /\
  numCmp a a = EQ /\
  forall x y, a = Fin x -> b = Fin y ->
    (numCmp a b = GT <-> (y < x)%Z) /\
    (numCmp a b = LT <-> (x < y)%Z) /\
    (numCmp a b = EQ <-> x = y).
Proof.
  split; [|split].
  - destruct a, b; unfold numCmp, js_gt; simpl; try done;
      repeat match goal with
             | |- context [(?x <? ?y)%Z] => destruct (Z.ltb_spec x y)
             end; simpl; try done; lia.
  - destruct a; unfold numCmp, js_gt; simpl; try done.
    by rewrite Z.ltb_irrefl.
  - intros x y -> ->. unfold numCmp, js_gt.
    destruct (Z.ltb_spec y x), (Z.ltb_spec x y); repeat split; intros;
      try done; lia.
Qed.

Lemma goalCmp_swap goal (agentA worldA agentB worldB : Store) :
  (forall e, e ∈ Goal.expectations goal -> antisymmetric e) ->
  goalCmp goal agentA worldA agentB worldB
  = invert (goalCmp goal agentB worldB agentA worldA).
Proof.
  intros H. rewrite !goalCmp_tally.
  set (a := {| agent := agentA; world := worldA |}).
  set (b := {| agent := agentB; world := worldB |}).
  destruct (votes_swap goal a b H) as [-> ->].
  repeat case_match; try done; lia.
Qed.

(** X13 (the comparator of [introspected.sort]). For a goal whose
    expectations have an antisymmetric [compare], swapping the two entries
    negates the comparator: it never puts a pair both ways. *)
Theorem rank_antisymmetric (goal : Goal) (a b : Introspected) :
  (forall e, e ∈ Goal.expectations goal -> antisymmetric e) ->
  Planner.rank goal a b = (- Planner.rank goal b a)%Z.
Proof.
  intros H. unfold Planner.rank.
  rewrite (goalCmp_swap goal (Introspected.agent a) (Introspected.world a)
             (Introspected.agent b) (Introspected.world b) H).
  destruct (goalCmp goal (Introspected.agent b) _ _ _); simpl; lia.
Qed.

Lemma simulate_in_place_app (this : Planner.t) (p q : list Action)
    (c : Concept) :
  Planner.simulate_in_place this (p ++ q) c
  = match Planner.simulate_in_place this p c with
    | (Ok true, c1) => Planner.simulate_in_place this q c1
    | r => r
    end.
Proof.
  revert c. induction p as [|a p IH]; intros c; [done|].
  cbn [app Planner.simulate_in_place]. unfold bind.
  destruct (forM_ applyAction (Planner.ambientActions this) c) as [[[]|e] c1];
    [|done].
  destruct (Action.canPerform a c1) as [[[]|e] c2]; simpl; try done.
  destruct (applyAction a c2) as [[[]|e] c3]; [|done]. apply IH.
Qed.

(** X14 ([simulate_in_place] composes). Replaying [p ++ q] is replaying [p]
    and, when that succeeded, replaying [q] from the stores it left; when
    [p] stopped at a failed precondition or raised, so does the whole, with
    the same stores. *)
Theorem replay_composes (this : Planner.t) (p q : list Action) (c : Concept) :
  Planner.simulate_in_place this (p ++ q) c
  = match Planner.simulate_in_place this p c with
    | (Ok true, c1) => Planner.simulate_in_place this q c1
    | r => r
    end.
Proof. apply simulate_in_place_app. Qed.



Lemma accepted_cons this c plan a ext :
  a ∈ Planner.actions this ->
  Planner.not_tail plan a = true ->
  performable this plan c a = Ok true ->
  accepted this c (plan ++ [a]) ext ->
  accepted this c plan (a :: ext).
Proof.
  intros Ha Hn Hp Hext pre b post E. destruct pre as [|x pre].
  - injection E as -> ->. by rewrite app_nil_r.
  - injection E as -> ->.
    replace (plan ++ x :: pre) with ((plan ++ [x]) ++ pre)
      by (by rewrite <- app_assoc).
    by eapply Hext.
Qed.

Lemma search_accepted this goal depth : forall plan c res,
  search this goal plan depth c = Ok res ->
  Forall (fun l => exists ext, l = plan ++ ext /\ length ext = depth /\
                     accepted this c plan ext) res.
Proof.
  induction depth as [|d IH]; intros plan c res.
  - intros [= <-]. constructor; [|done]. exists []. rewrite app_nil_r.
    split; [done|]. split; [done|]. intros pre a post E. by destruct pre.
  - cbn [search].
    destruct (collect (candidate this plan c) _) as [plans|e] eqn:Hc;
      simpl; [|done].
    destruct (collect _ (rev plans)) as [entries|e] eqn:He; simpl; [|done].
    intros [= <-]. apply Forall_forall. intros l Hl.
    apply list_elem_of_fmap in Hl as (en & -> & Hen).
    apply elem_of_take in Hen as (i & Hen & _).
    apply list_elem_of_lookup_2, js_sort_elem in Hen.
    destruct (collect_elem _ _ _ _ He Hen) as (p & zs & Hp & Hzs & Henz).
    destruct (search this goal p d c) as [ls|e] eqn:Hs; simpl in Hzs; [|done].
    apply collect_scored_plans in Hzs. subst ls.
    apply IH in Hs. rewrite Forall_forall in Hs.
    destruct (Hs (Introspected.plan en)) as (ext & Hext & Hlen & Hacc).
    { apply list_elem_of_fmap. eauto. }
    apply list_elem_of_In, in_rev, list_elem_of_In in Hp.
    destruct (collect_elem _ _ _ _ Hc Hp) as (a & ys & Ha & Hys & Hpy).
    apply candidate_elem with (p := p) in Hys as [-> Hperf]; [|done].
    apply list_elem_of_filter in Ha as [Hn Ha].
    exists (a :: ext). rewrite Hext, <- app_assoc. simpl.
    split; [done|]. split; [by rewrite Hlen|].
    apply accepted_cons; try done. by destruct (Planner.not_tail plan a).
Qed.

Lemma introspect_sound this goal plan depth c r :
  1 <= depth ->
  fst (Planner.introspect this goal plan depth c) = Ok r ->
  exists op, r = Some op /\ op ∈ Planner.actions this /\
    Planner.not_tail plan op = true /\
    performable this plan c op = Ok true.
Proof.
  intros Hd. unfold Planner.introspect.
  destruct (depth <=? 0) eqn:E; [apply Nat.leb_le in E; lia|].
  unfold bind. rewrite plan_introspection_eq.
  destruct (search this goal plan depth c) as [[|newPlan ?]|e] eqn:Hs;
    try done.
  apply search_accepted in Hs.
  apply Forall_cons in Hs as [(ext & -> & Hl & Hacc) _].
  destruct (length (plan ++ ext) <=? length plan) eqn:Hlen.
  { apply Nat.leb_le in Hlen. rewrite length_app in Hlen. lia. }
  rewrite lookup_app_r, Nat.sub_diag by done.
  destruct ext as [|a ext]; [simpl in Hl; lia|]. simpl.
  intros [= <-]. exists a. split; [done|].
  destruct (Hacc [] a ext eq_refl) as (? & ? & ?). by rewrite app_nil_r in *.
Qed.

(** X17 ([introspect]). At a positive depth [introspect] never answers
    [None]: what it returns is a registered action that differs from the
    last action of the plan and whose [canPerform] held on clones that
    replayed the plan. *)
Theorem introspect_proposes_performable (this : Planner.t) (goal : Goal)
    (plan : list Action) (depth : nat) (c : Concept) (r : option Action) :
  1 <= depth ->
  fst (Planner.introspect this goal plan depth c) = Ok r ->
  exists op, r = Some op /\ op ∈ Planner.actions this /\
    Planner.not_tail plan op = true /\
    performable this plan c op = Ok true.
Proof. apply introspect_sound. Qed.

Lemma plan_loop_shape this goal maxIterations :
  forall actionsPlan planDone c r,
    fst (Planner.plan_loop this goal maxIterations actionsPlan planDone c)
    = Ok r ->
    exists ext, r = Some (actionsPlan ++ ext) /\
      length ext <= maxIterations /\
      (planDone = false -> 1 <= maxIterations -> 1 <= length ext) /\
      (forall pre a post, ext = pre ++ a :: post ->
         a ∈ Planner.actions this /\
         Planner.not_tail (actionsPlan ++ pre) a = true).
Proof.
  induction maxIterations as [|n IH]; intros actionsPlan planDone c r;
    simpl; destruct planDone.
  1-3: intros [= <-]; exists []; rewrite app_nil_r; split; [done|];
    split; [simpl; lia|]; split; [intros; (done || lia)|];
    intros pre a post E; by destruct pre.
  intros (doOpt & c1 & Hi & H)%bind_fst_ok.
  destruct (introspect_sound this goal actionsPlan 5 c doOpt) as
    (op & -> & Hreg & Hnt & _); [lia | by rewrite Hi |].
  simpl in H.
  apply bind_fst_ok in H as (op' & c2 & [= <- <-] & H).
  apply bind_fst_ok in H as (ok & c3 & _ & H).
  apply bind_fst_ok in H as (done' & c4 & _ & H).
  apply IH in H as (ext & -> & Hlen & _ & Hch).
  exists (op :: ext). rewrite <- app_assoc. split; [done|].
  split; [simpl; lia|]. split; [simpl; lia|].
  intros pre a post E. destruct pre as [|x pre].
  - injection E as -> ->. by rewrite app_nil_r.
  - injection E as -> ->.
    replace (actionsPlan ++ x :: pre) with ((actionsPlan ++ [x]) ++ pre)
      by (by rewrite <- app_assoc).
    by eapply Hch.
Qed.

(** X18 (shape of a plan). For a goal with expectations, what [plan]
    returns is never [None]: it is a plan of 1 to 50 registered actions in
    which no action is followed by itself. *)
Theorem plan_shape (this : Planner.t) (goal : Goal) (c : Concept)
    (r : option (list Action)) :
  Goal.expectations goal <> [] ->
  fst (Planner.plan this goal c) = Ok r ->
  exists p, r = Some p /\
    1 <= length p <= 50 /\
    Forall (fun a => a ∈ Planner.actions this) p /\
    no_adjacent_repeat p.
Proof.
  intros Hg. unfold Planner.plan.
  destruct (Goal.expectations goal) as [|e es]; [done|]. simpl length.
  cbn [Nat.eqb]. intros H.
  apply plan_loop_shape in H as (p & -> & Hlen & Hpos & Hch).
  exists p. split; [done|]. split; [split; [by apply Hpos; [|lia] | done]|].
  split.
  - apply Forall_forall. intros a Ha.
    apply list_elem_of_split in Ha as (pre & post & ->).
    by destruct (Hch pre a post eq_refl).
  - intros i a b Ha Hb.
    assert (p = take i p ++ a :: b :: drop (S (S i)) p) as E.
    { rewrite <- (take_drop i p) at 1. f_equal.
      rewrite (drop_S _ a _ Ha). f_equal. by rewrite (drop_S _ b _ Hb). }
    destruct (Hch (take i p ++ [a]) b (drop (S (S i)) p)) as [_ Hnt].
    { rewrite <- app_assoc. exact E. }
    unfold Planner.not_tail in Hnt. simpl in Hnt.
    rewrite last_snoc in Hnt. apply negb_true_iff, Nat.eqb_neq in Hnt. done.
Qed.

Lemma plan_loop_validated this goal maxIterations :
  (forall a, a ∈ Planner.actions this -> pure (Action.canPerform a)) ->
  forall actionsPlan c p,
    fst (Planner.plan_loop this goal maxIterations actionsPlan false c)
    = Ok (Some p) ->
    length p < length actionsPlan + maxIterations ->
    fst (Planner.simulate this goal p c) = Ok true.
Proof.
  intros Hpure. induction maxIterations as [|n IH]; intros actionsPlan c p;
    cbn [Planner.plan_loop].
  - intros [= <-]. lia.
  - intros (doOpt & c1 & Hi & H)%bind_fst_ok.
    pose proof (introspect_pure this goal actionsPlan 5 c) as Hc1.
    rewrite Hi in Hc1. simpl in Hc1. subst c1.
    destruct (introspect_sound this goal actionsPlan 5 c doOpt) as
      (op & -> & Hreg & _); [lia | by rewrite Hi |].
    simpl in H.
    apply bind_fst_ok in H as (op' & c2 & [= <- <-] & H).
    apply bind_fst_ok in H as (ok & c3 & Hok & H).
    pose proof (Hpure op Hreg c) as Hc3. rewrite Hok in Hc3. simpl in Hc3.
    subst c3.
    apply bind_fst_ok in H as (done' & c4 & Hdone & H).
    assert (c4 = c) as ->.
    { destruct ok; [|by injection Hdone as _ <-].
      pose proof (simulate_pure this goal (actionsPlan ++ [op]) c) as Hs.
      by rewrite Hdone in Hs. }
    destruct done'.
    + destruct n; simpl in H; injection H as <-;
        (destruct ok; [by rewrite Hdone | done]).
    + intros Hlen. apply (IH _ _ _ H). rewrite length_app. simpl. lia.
Qed.

(** X19 (a short plan is a validated plan). When [canPerform] of the
    registered actions is pure and [plan] returns fewer than 50 actions, the
    loop ended because [simulate] confirmed the goal: [simulate] answers
    [true] on the returned plan. *)
Theorem short_plan_is_validated (this : Planner.t) (goal : Goal) (c : Concept)
    (p : list Action) :
  (forall a, a ∈ Planner.actions this -> pure (Action.canPerform a)) ->
  Goal.expectations goal <> [] ->
  fst (Planner.plan this goal c) = Ok (Some p) ->
  length p < 50 ->
  fst (Planner.simulate this goal p c) = Ok true.
Proof.
  intros Hpure Hg. unfold Planner.plan.
  destruct (Goal.expectations goal) as [|e es]; [done|]. simpl length.
  cbn [Nat.eqb]. intros H Hlen.
  by apply (plan_loop_validated this goal 50 Hpure [] c p H).
Qed.

Lemma simulate_step_no_ambient this plan a c c1 :
  Planner.ambientActions this = [] ->
  Planner.simulate_in_place this plan c = (Ok true, c1) ->
  performable this plan c a = Ok true ->
  Planner.simulate_in_place this (plan ++ [a]) c
  = match applyAction a (snd (Action.canPerform a c1)) with
    | (Ok _, c3) => (Ok true, c3)
    | (Throw e, c3) => (Throw e, c3)
    end.
Proof.
  intros Hamb Hplan Hperf. rewrite simulate_in_place_app, Hplan.
  cbn [Planner.simulate_in_place]. rewrite Hamb. cbn [forM_].
  unfold performable, replay in Hperf. rewrite Hplan in Hperf. simpl in Hperf.
  unfold bind, ret.
  destruct (Action.canPerform a c1) as [[[]|e] c2]; simpl in *; try done;
    try by destruct (applyAction a c2) as [[[]|e'] c3].
Qed.

Lemma accepted_replays this c ext : forall plan,
  Planner.ambientActions this = [] ->
  fst (Planner.simulate_in_place this plan c) = Ok true ->
  accepted this c plan ext ->
  is_ok (replay this (plan ++ ext) c) = true ->
  fst (Planner.simulate_in_place this (plan ++ ext) c) = Ok true.
Proof.
  induction ext as [|a ext IH]; intros plan Hamb Hplan Hacc Hok.
  - by rewrite app_nil_r.
  - destruct (Planner.simulate_in_place this plan c) as [r c1] eqn:E.
    simpl in Hplan. subst r.
    destruct (Hacc [] a ext eq_refl) as (_ & _ & Hperf).
    rewrite app_nil_r in Hperf.
    pose proof (simulate_step_no_ambient this plan a c c1 Hamb E Hperf) as Hs.
    replace (plan ++ a :: ext) with ((plan ++ [a]) ++ ext) in *
      by (by rewrite <- app_assoc).
    apply IH; [done| | |done].
    + rewrite Hs. destruct (applyAction a _) as [[[]|e] c3] eqn:Ha; [done|].
      exfalso. unfold replay in Hok. rewrite simulate_in_place_app, Hs in Hok.
      done.
    + intros pre b post ->. rewrite <- app_assoc. simpl.
      apply (Hacc (a :: pre) b post eq_refl).
Qed.

Lemma collect_scored_ok this c ls es l :
  collect (scored this c) ls = Ok es -> l ∈ ls -> is_ok (replay this l c) = true.
Proof.
  intros Hc Hl. apply collect_ok in Hc as (yss & H & _).
  apply list_elem_of_lookup in Hl as [i Hi].
  destruct (Forall2_lookup_l _ _ _ _ _ H Hi) as (zs & _ & Hz).
  unfold scored in Hz. by destruct (replay this l c).
Qed.

(** X20 (leaves can be replayed). For a planner without ambient actions
    and a plan whose replay succeeds, the replay of every plan returned by
    [plan_introspection] succeeds too. (The candidate test asks
    [canPerform] before the ambient actions of the step have run, so with
    ambient actions this fails; see [ambient_breaks_replay].) *)
Theorem leaves_replay_without_ambient (this : Planner.t) (goal : Goal)
    (plan : list Action) (depth : nat) (c : Concept)
    (res : list (list Action)) :
  Planner.ambientActions this = [] ->
  fst (Planner.simulate_in_place this plan c) = Ok true ->
  fst (Planner.plan_introspection this goal plan depth c) = Ok res ->
  Forall (fun l => fst (Planner.simulate_in_place this l c) = Ok true) res.
Proof.
  intros Hamb Hplan. rewrite plan_introspection_eq. simpl. intros Hs.
  pose proof (search_accepted this goal depth plan c res Hs) as Hacc.
  destruct depth as [|d].
  { injection Hs as <-. by constructor. }
  cbn [search] in Hs.
  destruct (collect (candidate this plan c) _) as [plans|e] eqn:Hc;
    simpl in Hs; [|done].
  destruct (collect _ (rev plans)) as [entries|e] eqn:He; simpl in Hs; [|done].
  injection Hs as <-. rewrite Forall_forall in Hacc |- *. intros l Hl.
  destruct (Hacc l Hl) as (ext & -> & _ & Hext).
  apply accepted_replays; try done.
  apply list_elem_of_fmap in Hl as (en & Hpl & Hen).
  apply elem_of_take in Hen as (i & Hen & _).
  apply list_elem_of_lookup_2, js_sort_elem in Hen.
  destruct (collect_elem _ _ _ _ He Hen) as (p & zs & Hp & Hzs & Henz).
  destruct (search this goal p d c) as [ls|e] eqn:Hsp; simpl in Hzs; [|done].
  rewrite Hpl. eapply collect_scored_ok; [exact Hzs|].
  apply collect_scored_plans in Hzs. subst ls. apply list_elem_of_fmap. eauto.
Qed.

Lemma applyAction_cons fx fxs r n cf cst c c1 :
  ActionEffect.apply fx c = (Ok tt, c1) ->
  applyAction {| Action.ref := r; Action.name := n; Action.canPerform := cf;
                 Action.effects := fx :: fxs; Action.cost := cst |} c
  = applyAction {| Action.ref := r; Action.name := n; Action.canPerform := cf;
                   Action.effects := fxs; Action.cost := cst |} c1.
Proof. intros H. unfold applyAction. simpl. unfold bind. by rewrite H. Qed.

Lemma get_num_eq on key c :
  World.get_num on key c
  = (match target_store on c !! key with
     | Some v => Ok (World.as_num v)
     | None => Throw UnwrapNone
     end, c).
Proof.
  unfold World.get_num, bind. rewrite on_target_eq, get_eq. simpl.
  assert (with_target on (target_store on c) c = c) as ->
    by (by destruct on, c).
  by destruct (target_store on c !! key).
Qed.

Ltac run_effect :=
  erewrite applyAction_cons;
  [|apply changeAmt_apply; simpl; simplify_map_eq; reflexivity].

(** X21 (the demo's actions keep the stocks). On stores where wood, food,
    hunger and fire are integers, as the demo sets them up and as its
    effects, whose amounts are integers, keep them, and where no stock (wood
    of the agent and of the world, food, hunger) is negative, applying a
    registered action of the demo whose [canPerform] holds does not raise
    and leaves such stores: the preconditions guard every decrement. (For
    quantities that are not whole the guards would not do: [food > 0] lets
    half a unit of food be eaten as one.) *)
Theorem demo_actions_keep_stock (a : Action) (c : Concept) :
  stocked c ->
  a ∈ Planner.actions World.planner ->
  fst (Action.canPerform a c) = Ok true ->
  exists c', applyAction a c = (Ok tt, c') /\ stocked c'.
Proof.
  intros (aw & f & h & ww & fi & Haw & Hf & Hh & Hww & Hfi & ?) Ha Hcan.
  rewrite demo_actions in Ha.
  repeat (apply elem_of_cons in Ha as [->|Ha]); [| | | |by apply elem_of_nil in Ha].
  - exists c. split; [done|]. exists aw, f, h, ww, fi. done.
  - (* eat_food *)
    assert (0 < f)%Z as Hfpos.
    { cbn [World.eatFood Action.canPerform] in Hcan. unfold bind in Hcan.
      rewrite !get_num_eq in Hcan. cbn [target_store] in Hcan.
      rewrite Hf, Hh in Hcan. simpl in Hcan.
      injection Hcan as Hcan. apply andb_true_iff in Hcan as [Hcan _].
      by apply Z.ltb_lt in Hcan. }
    unfold World.eatFood. run_effect. run_effect.
    eexists. split; [reflexivity|].
    exists aw, (f + -1)%Z, (Z.min (Z.max (h + -4) 0) 100), ww, fi.
    simpl. simplify_map_eq. repeat split; try done; lia.
  - (* feed_fire *)
    assert (2 <= aw)%Z as Hawpos.
    { cbn [World.addWoodToFire Action.canPerform] in Hcan. unfold bind in Hcan.
      rewrite !on_agent_get in Hcan. rewrite Haw in Hcan. simpl in Hcan.
      rewrite on_world_get, Hww in Hcan. simpl in Hcan.
      injection Hcan as Hcan. by apply Z.leb_le in Hcan. }
    unfold World.addWoodToFire. run_effect. run_effect. run_effect.
    eexists. split; [reflexivity|].
    exists (aw + -2)%Z, f, (h + 2)%Z, ww, (fi + 10)%Z.
    simpl. simplify_map_eq. repeat split; try done; lia.
  - (* get_wood *)
    assert (2 <= ww)%Z as Hwwpos.
    { cbn [World.getWood Action.canPerform] in Hcan. unfold bind in Hcan.
      rewrite !on_world_get in Hcan. simpl in Hcan.
      rewrite Hww in Hcan. simpl in Hcan.
      injection Hcan as Hcan. by apply Z.leb_le in Hcan. }
    unfold World.getWood. run_effect. run_effect. run_effect.
    eexists. split; [reflexivity|].
    exists (aw + 2)%Z, f, (h + 4)%Z, (ww + -2)%Z, fi.
    simpl. simplify_map_eq. repeat split; try done; lia.
Qed.

(** ** Instances on the demo and on small worlds *)

Lemma rank_antisymmetric_witness :
  (forall e, e ∈ Goal.expectations World.surviveGoal -> antisymmetric e) /\
  Planner.rank World.surviveGoal Scenes.cold Scenes.warmed = 1%Z /\
  Planner.rank World.surviveGoal Scenes.warmed Scenes.cold = (-1)%Z.
Proof.
  split; [exact surviveGoal_antisymmetric|].
  assert (H : Planner.rank World.surviveGoal Scenes.warmed Scenes.cold = (-1)%Z)
    by (vm_compute; reflexivity).
  split; [|exact H].
  rewrite (rank_antisymmetric World.surviveGoal Scenes.cold Scenes.warmed
             surviveGoal_antisymmetric).
  rewrite H. reflexivity.
Defined.

Lemma demo_first_ok :
  fst (Planner.introspect World.planner World.surviveGoal [] 5 World.start)
  = Ok Scenes.demo_first.
Proof. apply ok_from_ok. vm_compute. reflexivity. Qed.

Lemma introspect_proposes_performable_witness :
  1 <= 5 /\
  fst (Planner.introspect World.planner World.surviveGoal [] 5 World.start)
  = Ok Scenes.demo_first /\
  exists op, Scenes.demo_first = Some op /\ op ∈ Planner.actions World.planner.
Proof.
  assert (Hd : 1 <= 5) by lia.
  split; [exact Hd|]. split; [exact demo_first_ok|].
  destruct (introspect_proposes_performable World.planner World.surviveGoal []
              5 World.start Scenes.demo_first Hd demo_first_ok)
    as (op & H1 & H2 & _).
  exists op. split; [exact H1 | exact H2].
Defined.

Lemma some_from_ok {A} (r : Res (option (list A))) :
  is_ok r && is_some (from_ok None r) = true ->
  r = Ok (Some (default [] (from_ok None r))).
Proof. by destruct r as [[p|]|e]. Qed.

Lemma tired_plan_ok :
  fst (Planner.plan Examples.idlePlanner Scenes.tiredGoal Examples.hungry)
  = Ok (Some Scenes.tired_plan).
Proof. apply some_from_ok. vm_compute. reflexivity. Qed.

Lemma tired_plan_short : length Scenes.tired_plan < 50.
Proof. apply Nat.ltb_lt. vm_compute. reflexivity. Qed.

Lemma tired_goal_nonempty : Goal.expectations Scenes.tiredGoal <> [].
Proof. discriminate. Qed.

Lemma idle_canPerform_pure a :
  a ∈ Planner.actions Examples.idlePlanner -> pure (Action.canPerform a).
Proof.
  rewrite idle_actions. intros Ha.
  repeat (apply elem_of_cons in Ha as [->|Ha]);
    [| |by apply elem_of_nil in Ha]; apply pure_ret.
Qed.

Lemma plan_shape_witness :
  Goal.expectations Scenes.tiredGoal <> [] /\
  fst (Planner.plan Examples.idlePlanner Scenes.tiredGoal Examples.hungry)
  = Ok (Some Scenes.tired_plan) /\
  1 <= length Scenes.tired_plan <= 50 /\
  no_adjacent_repeat Scenes.tired_plan.
Proof.
  split; [exact tired_goal_nonempty|]. split; [exact tired_plan_ok|].
  destruct (plan_shape Examples.idlePlanner Scenes.tiredGoal Examples.hungry
              (Some Scenes.tired_plan) tired_goal_nonempty tired_plan_ok)
    as (p & Hp & Hlen & _ & Hrep).
  pose proof (f_equal (fun o => match o with Some q => q | None => p end) Hp)
    as E.
  cbv beta iota in E. subst p. split; [exact Hlen | exact Hrep].
Defined.

Lemma short_plan_is_validated_witness :
  (forall a, a ∈ Planner.actions Examples.idlePlanner ->
             pure (Action.canPerform a)) /\
  Goal.expectations Scenes.tiredGoal <> [] /\
  fst (Planner.plan Examples.idlePlanner Scenes.tiredGoal Examples.hungry)
  = Ok (Some Scenes.tired_plan) /\
  length Scenes.tired_plan < 50 /\
  fst (Planner.simulate Examples.idlePlanner Scenes.tiredGoal Scenes.tired_plan
         Examples.hungry) = Ok true.
Proof.
  split; [exact idle_canPerform_pure|]. split; [exact tired_goal_nonempty|].
  split; [exact tired_plan_ok|]. split; [exact tired_plan_short|].
  exact (short_plan_is_validated Examples.idlePlanner Scenes.tiredGoal
           Examples.hungry Scenes.tired_plan idle_canPerform_pure
           tired_goal_nonempty tired_plan_ok tired_plan_short).
Defined.

Lemma idle_leaves_ok :
  fst (Planner.plan_introspection Examples.idlePlanner Examples.starvingGoal
         [] 2 Examples.hungry) = Ok Scenes.idle_leaves.
Proof. apply ok_from_ok. vm_compute. reflexivity. Qed.

Lemma leaves_replay_without_ambient_witness :
  Planner.ambientActions Examples.idlePlanner = [] /\
  fst (Planner.simulate_in_place Examples.idlePlanner [] Examples.hungry)
  = Ok true /\
  fst (Planner.plan_introspection Examples.idlePlanner Examples.starvingGoal
         [] 2 Examples.hungry) = Ok Scenes.idle_leaves /\
  Forall (fun l => fst (Planner.simulate_in_place Examples.idlePlanner l
                          Examples.hungry) = Ok true) Scenes.idle_leaves.
Proof.
  split; [reflexivity|]. split; [reflexivity|]. split; [exact idle_leaves_ok|].
  exact (leaves_replay_without_ambient Examples.idlePlanner
           Examples.starvingGoal [] 2 Examples.hungry Scenes.idle_leaves
           eq_refl eq_refl idle_leaves_ok).
Defined.

(** With ambient actions a leaf need not replay: the fire is 1 when the
    candidate is tested and 0 when the action is replayed. *)
Lemma ambient_breaks_replay :
  map (map Action.name)
    (from_ok [] (fst (Planner.plan_introspection Scenes.chillyPlanner
                        Examples.starvingGoal [] 1 Scenes.embers)))
  = [["warm"]] /\
  fst (Planner.simulate_in_place Scenes.chillyPlanner [Scenes.warm]
         Scenes.embers) = Ok false.
Proof. split; vm_compute; reflexivity. Qed.

Lemma peckish_stocked : stocked Scenes.peckish.
Proof.
  exists 0%Z, 1%Z, 3%Z, 50%Z, 9%Z.
  repeat split; try (vm_compute; reflexivity); lia.
Qed.

Lemma eatFood_registered : World.eatFood ∈ Planner.actions World.planner.
Proof. rewrite demo_actions. set_solver. Qed.

Lemma demo_actions_keep_stock_witness :
  stocked Scenes.peckish /\
  World.eatFood ∈ Planner.actions World.planner /\
  fst (Action.canPerform World.eatFood Scenes.peckish) = Ok true /\
  agent (snd (applyAction World.eatFood Scenes.peckish)) !! "food"
  = Some (VNum (Fin 0)) /\
  exists c', applyAction World.eatFood Scenes.peckish = (Ok tt, c') /\
             stocked c'.
Proof.
  assert (H : fst (Action.canPerform World.eatFood Scenes.peckish) = Ok true)
    by (vm_compute; reflexivity).
  split; [exact peckish_stocked|]. split; [exact eatFood_registered|].
  split; [exact H|]. split; [vm_compute; reflexivity|].
  exact (demo_actions_keep_stock World.eatFood Scenes.peckish peckish_stocked
           eatFood_registered H).
Defined.

(** X22 (the demo's comparers). Each of the three expectations of the
    demo goal has an antisymmetric [compare], on all concepts: swapping the
    concepts inverts its answer. *)
Theorem demo_comparers_antisymmetric :
  Forall antisymmetric (Goal.expectations World.surviveGoal).
Proof.
  repeat constructor.
  - apply HealthyFire_antisymmetric.
  - apply HasFewWood_antisymmetric.
  - apply NotStarving_antisymmetric.
Qed.

Lemma built_check_pure (b : ExpectBuilder.t) :
  pure (ExpectBuilder.checker_ b) -> pure (Expects.check (ExpectBuilder.build b)).
Proof.
  intros H. cbn [ExpectBuilder.build Expects.check].
  apply pure_bind; [apply on_target_pure, get_pure|].
  intros o. by destruct (negb (is_some o)); [apply pure_ret|].
Qed.

Lemma fireDecay_pure : pure (Action.canPerform World.fireDecay).
Proof.
  apply pure_bind; [apply get_num_pure|]. intros ?. apply pure_ret.
Qed.

(** X23 (the demo's predicates write nothing). [canPerform] of every
    registered and ambient action of the demo, and [check] of every
    expectation of its goal, leave the stores they are given unchanged,
    whatever these hold. *)
Theorem demo_predicates_pure :
  Forall (fun a => pure (Action.canPerform a))
    (Planner.actions World.planner ++ Planner.ambientActions World.planner) /\
  Forall (fun e => pure (Expects.check e)) (Goal.expectations World.surviveGoal).
Proof.
  split.
  - apply Forall_app. split.
    + apply Forall_forall. apply demo_canPerform_pure.
    + repeat constructor. apply fireDecay_pure.
  - repeat constructor; apply built_check_pure;
      (apply pure_bind; [apply get_num_pure|]; intros ?; apply pure_ret).
Qed.
